(** * Tasks and categories on a browser key-value store

    A shallow embedding of [js/store.js] (the generic [Store]) and of the
    two revisions of the [Model] that orchestrates a task store and a
    category store, followed by the properties of the specification that
    the code has, and by evaluations of the code where it leaves them.

    Conventions of the embedding.
    - A JavaScript value stored in a record is [undefined], [null], a
      boolean, an integer number, or a string.  Numbers are the integers a
      double holds exactly (timestamps, ids); [NaN], fractions and nested
      objects are outside the modelled domain.
    - A string is a sequence of code units below 256.
    - A record is a plain object used as a map from property names to
      values: a [gmap string value].  An in-memory object may hold a
      property whose value is [undefined]; [JSON.stringify] drops it.
    - A collection is the array kept under one [localStorage] key.
    - A callback is modelled by its argument: an operation returns what it
      passes to its completion callback.
    - [new Date().getTime()] is an input of every operation that may read
      the clock. *)

From Stdlib Require Import ZArith Ascii String DecimalString DecimalZ.
From stdpp Require Import gmap strings list fin_maps.

Open Scope Z_scope.
Open Scope string_scope.
Open Scope list_scope.

(** ** Values *)

Inductive value :=
  | VUndef
  | VNull
  | VBool (b : bool)
  | VNum (n : Z)
  | VStr (s : string).

#[global] Instance value_eq_dec : EqDecision value.
Proof. solve_decision. Defined.

Definition value_enc (v : value) : unit + unit + bool + Z + string :=
  match v with
  | VUndef => inl (inl (inl (inl tt)))
  | VNull => inl (inl (inl (inr tt)))
  | VBool b => inl (inl (inr b))
  | VNum n => inl (inr n)
  | VStr s => inr s
  end.

Definition value_dec (x : unit + unit + bool + Z + string) : value :=
  match x with
  | inl (inl (inl (inl _))) => VUndef
  | inl (inl (inl (inr _))) => VNull
  | inl (inl (inr b)) => VBool b
  | inl (inr n) => VNum n
  | inr s => VStr s
  end.

#[global] Instance value_countable : Countable value.
Proof.
  refine (inj_countable' value_enc value_dec _).
  intros []; reflexivity.
Defined.

(** [if (v)]: the truthiness of a value. *)
Definition truthy (v : value) : bool :=
  match v with
  | VUndef | VNull => false
  | VBool b => b
  | VNum n => negb (n =? 0)%Z
  | VStr s => negb (String.eqb s "")
  end.

(** [a === b]; on the modelled domain strict equality is identity. *)
Definition strict_eq (a b : value) : bool := bool_decide (a = b).

(** ** Strings: [trim], [ToNumber], [parseInt] *)

(** White space and line terminators among the code units below 256:
    TAB, LF, VT, FF, CR, SPACE and NBSP. *)
Definition is_space (c : ascii) : bool :=
  let n := nat_of_ascii c in
  ((9 <=? n) && (n <=? 13) || (n =? 32) || (n =? 160))%nat.

Fixpoint drop_space (l : list ascii) : list ascii :=
  match l with
  | c :: l' => if is_space c then drop_space l' else l
  | [] => []
  end.

(** [s.trim()] *)
Definition trim (s : string) : string :=
  string_of_list_ascii
    (rev (drop_space (rev (drop_space (list_ascii_of_string s))))).

Definition is_digit (c : ascii) : bool :=
  let n := nat_of_ascii c in ((48 <=? n) && (n <=? 57))%nat.

(** The decimal notation of an integer, [String(n)]. *)
Definition show (n : Z) : string := NilZero.string_of_int (Z.to_int n).

(** [ToNumber] of a string, for the decimal integer notation: surrounding
    white space is ignored, the empty string is 0, a sign may come first.
    [None] is [NaN].  A string in another numeric notation (fraction,
    exponent, radix prefix, [Infinity]) or with more digits than a double
    holds exactly is outside the modelled domain: the former reads as
    [NaN] here, the latter as the integer it writes. *)
Definition to_number (s : string) : option Z :=
  match trim s with
  | EmptyString => Some 0
  | String c t =>
      if Ascii.eqb c "+" then Z.of_uint <$> NilZero.uint_of_string t
      else Z.of_int <$> NilZero.int_of_string (String c t)
  end.

Fixpoint take_digits (l : list ascii) : list ascii :=
  match l with
  | c :: l' => if is_digit c then c :: take_digits l' else []
  | [] => []
  end.

Definition digits_value (l : list ascii) : option Z :=
  Z.of_uint <$> NilZero.uint_of_string (string_of_list_ascii (take_digits l)).

(** [parseInt(v, 10)] of a string or a number: leading white space, an
    optional sign, then the longest run of digits.  [None] is [NaN].  A
    number is first turned into its string, which for the numbers of the
    modelled domain (integers a double holds exactly, so below 10^21 in
    magnitude) is its decimal notation: the result is the number. *)
Definition parseInt (v : value) : option Z :=
  match v with
  | VNum n => Some n
  | VStr s =>
      match drop_space (list_ascii_of_string s) with
      | c :: l =>
          if Ascii.eqb c "-" then Z.opp <$> digits_value l
          else if Ascii.eqb c "+" then digits_value l
          else digits_value (c :: l)
      | [] => None
      end
  | _ => None
  end.

(** [a == b]: loose equality.  [null] and [undefined] equal each other
    only; a boolean is first turned into 0 or 1; a number and a string are
    compared as numbers. *)
Definition num_eq_str (n : Z) (s : string) : bool :=
  match to_number s with Some m => (n =? m)%Z | None => false end.

Definition bool_num (b : bool) : Z := if b then 1 else 0.

Definition loose_eq (a b : value) : bool :=
  match a, b with
  | (VUndef | VNull), (VUndef | VNull) => true
  | (VUndef | VNull), _ | _, (VUndef | VNull) => false
  | VNum n, VNum m => (n =? m)%Z
  | VStr s, VStr t => String.eqb s t
  | VBool x, VBool y => Bool.eqb x y
  | VNum n, VStr s | VStr s, VNum n => num_eq_str n s
  | VBool x, VNum n | VNum n, VBool x => (bool_num x =? n)%Z
  | VBool x, VStr s | VStr s, VBool x => num_eq_str (bool_num x) s
  end.

(** ** Records *)

Abbreviation record := (gmap string value).

(** [r[k]]: a missing property reads as [undefined]. *)
Definition get (r : record) (k : string) : value := default VUndef (r !! k).

(** [JSON.parse(JSON.stringify(r))]: properties holding [undefined] are
    not written. *)
Definition json_record (r : record) : record := filter (λ kv, kv.2 ≠ VUndef) r.

Definition json (items : list record) : list record := json_record <$> items.

(** [for (var key in upd) item[key] = upd[key]] *)
Definition assign (upd item : record) : record := upd ∪ item.

(** ** Store ([js/store.js])

    One collection: the array parsed from its [localStorage] entry.  An
    operation that writes returns the argument of its callback and the
    array written back ([JSON.stringify] of the array in memory). *)

Module Store.

(** The filter of [find]: every property of the query is strictly equal
    to the property of the item. *)
Definition matches (query item : record) : bool :=
  bool_decide (map_Forall (λ q v, get item q = v) query).

Definition find (query : record) (items : list record) : list record :=
  List.filter (matches query) items.

(** [items.find(item => item.id == id)]; [None] is [undefined]. *)
Definition findById (id : value) (items : list record) : option record :=
  List.find (λ item, loose_eq (get item "id") id) items.

Definition findAll (items : list record) : list record := items.

(** The loop of [save] with an id: the first item whose id is strictly
    equal to [id] receives every property of [updateData]. *)
Fixpoint update_first (id : value) (updateData : record)
    (items : list record) : list record :=
  match items with
  | item :: rest =>
      if strict_eq (get item "id") id
      then assign updateData item :: rest
      else item :: update_first id updateData rest
  | [] => []
  end.

(** [save(updateData, callback, id)] at clock reading [now]; an omitted
    [id] is [VUndef]. *)
Definition save (updateData : record) (id : value) (now : Z)
    (items : list record) : list record * list record :=
  if truthy id then
    let items := update_first id updateData items in
    (items, json items)
  else
    let updateData := <["id" := VNum now]> updateData in
    let items := items ++ [updateData] in
    ([updateData], json items).

(** The loop of [remove]: the first item whose id is loosely equal to
    [id] is spliced out. *)
Fixpoint splice_first (id : value) (items : list record) : list record :=
  match items with
  | item :: rest =>
      if loose_eq (get item "id") id then rest
      else item :: splice_first id rest
  | [] => []
  end.

Definition remove (id : value) (items : list record)
    : list record * list record :=
  let items := splice_first id items in
  (items, json items).

Definition drop (items : list record) : list record * list record :=
  ([], json []).

End Store.

(** ** The two stores and the effects of the model

    An operation of the model runs on the pair of collections and either
    passes a result to its callback or throws.  A [TypeError] does not undo
    what was written before it. *)

Inductive exn := TypeError.

Record stores := Stores {
  taskStorage : list record;
  categoryStorage : list record
}.

Inductive outcome (A : Type) :=
  | Done (a : A)
  | Throw (e : exn).
Arguments Done {A} a.
Arguments Throw {A} e.

Definition M (A : Type) : Type := stores → outcome A * stores.

Definition ret {A} (a : A) : M A := λ st, (Done a, st).

Definition throw {A} (e : exn) : M A := λ st, (Throw e, st).

Definition bind {A B} (m : M A) (k : A → M B) : M B :=
  λ st, match m st with
        | (Done a, st') => k a st'
        | (Throw e, st') => (Throw e, st')
        end.

Notation "'let*' x ':=' m 'in' k" := (bind m (λ x, k))
  (at level 10, x binder, m at level 100, k at level 200).

(** A query on one of the stores. *)
Definition tasks_read {A} (f : list record → A) : M A :=
  λ st, (Done (f (taskStorage st)), st).

Definition categories_read {A} (f : list record → A) : M A :=
  λ st, (Done (f (categoryStorage st)), st).

(** A writing operation on one of the stores. *)
Definition tasks_write {A} (f : list record → A * list record) : M A :=
  λ st, let (a, items) := f (taskStorage st) in
        (Done a, Stores items (categoryStorage st)).

Definition categories_write {A} (f : list record → A * list record) : M A :=
  λ st, let (a, items) := f (categoryStorage st) in
        (Done a, Stores (taskStorage st) items).

(** [x.p] where [x] may be [undefined]. *)
Definition defined {A} (x : option A) : M A :=
  match x with
  | Some a => ret a
  | None => throw TypeError
  end.

(** [data[0].id] *)
Definition first_id (data : list record) : M value :=
  let* item := defined (head data) in ret (get item "id").

(** The result handed to the callback of [read]. *)
Inductive found :=
  | Records (data : list record)
  | Single (data : record).

(** The first argument of [read], by its [typeof]. *)
Inductive query :=
  | QCallback
  | QValue (v : value)
  | QObject (q : record).

(** ** Model, the current revision (with [_getCategoryIdByName] and
    [_joinCategories]) *)

Module Model.

(** [_getCategoryIdByName(categoryName)]; [now] is the clock reading of
    the [save] that creates the category. *)
Definition _getCategoryIdByName (categoryName : value) (now : Z) : M value :=
  let* data := categories_read (Store.find {["name" := categoryName]}) in
  if (length data =? 0)%nat then
    let* data :=
      categories_write (Store.save {["name" := categoryName]} VUndef now) in
    first_id data
  else first_id data.

(** [new Map()] filled by
    [categories.forEach(category => map.set(category.id, category.name))]. *)
Definition categoryMap (categories : list record) : gmap value value :=
  foldl (λ m category, <[get category "id" := get category "name"]> m)
    ∅ categories.

(** [map.get(k)] *)
Definition map_get (m : gmap value value) (k : value) : value :=
  default VUndef (m !! k).

Definition _joinCategories (tasks : list record) : M (list record) :=
  let* categories := categories_read Store.findAll in
  let caregoryMap := categoryMap categories in
  ret ((λ task,
         <["categoryName" := map_get caregoryMap (get task "categoryId")]> task)
       <$> tasks).

(** [title ? title.trim() : ''] *)
Definition trimmed (s : string) : string :=
  if truthy (VStr s) then trim s else "".

(** [create(title, categoryName, callback)] on two strings, as the view
    passes them; [now_c] and [now_t] are the clock readings of the
    category [save] and of the task [save]. *)
Definition create (title categoryName : string) (now_c now_t : Z)
    : M (list record) :=
  let title := trimmed title in
  let categoryName := trimmed categoryName in
  let* categoryId := _getCategoryIdByName (VStr categoryName) now_c in
  let newTask : record :=
    {[ "title" := VStr title;
       "categoryId" := categoryId;
       "completed" := VBool false ]} in
  tasks_write (Store.save newTask VUndef now_t).

(** [findById] with the result of [parseInt]: [NaN] is loosely equal to
    the id of no item. *)
Definition findById_parsed (query : option Z) (items : list record)
    : option record :=
  match query with
  | Some n => Store.findById (VNum n) items
  | None => None
  end.

Definition read (q : query) : M found :=
  match q with
  | QCallback =>
      let* tasks := tasks_read Store.findAll in
      let* data := _joinCategories tasks in
      ret (Records data)
  | QValue ((VStr _ | VNum _) as v) =>
      let query := parseInt v in
      let* task := tasks_read (findById_parsed query) in
      let* task := defined task in
      let* category :=
        categories_read (Store.findById (get task "categoryId")) in
      let* category := defined category in
      ret (Single (<["categoryName" := get category "name"]> task))
  | QValue _ =>
      (* [for (var q in query)] enumerates nothing *)
      let* tasks := tasks_read (Store.find ∅) in
      let* data := _joinCategories tasks in
      ret (Records data)
  | QObject query =>
      let* tasks := tasks_read (Store.find query) in
      let* data := _joinCategories tasks in
      ret (Records data)
  end.

(** The callback that [update] passes to [findById]: it cleans up the
    previous category and returns [data] with the new [categoryId]. *)
Definition reassign (newCategoryId : value) (data : record)
    (task : option record) : M record :=
  let* task := defined task in
  let prevCategoryId := get task "categoryId" in
  if negb (strict_eq newCategoryId prevCategoryId) then
    let* found :=
      tasks_read (Store.find {["categoryId" := prevCategoryId]}) in
    let* _ :=
      if (length found <=? 1)%nat
      then categories_write (Store.remove prevCategoryId)
      else ret [] in
    ret (<["categoryId" := newCategoryId]> data)
  else ret data.

(** [update(id, data, callback)]; [data] is an object, [now_c] and [now_t]
    are the clock readings of the category [save] and of a task [save]
    without id. *)
Definition update (id : value) (data : record) (now_c now_t : Z)
    : M (list record) :=
  match data !! "categoryName" with
  | Some categoryName =>
      let data := delete "categoryName" data in
      let* newCategoryId := _getCategoryIdByName categoryName now_c in
      let* task := tasks_read (Store.findById id) in
      let* data := reassign newCategoryId data task in
      tasks_write (Store.save data id now_t)
  | None => tasks_write (Store.save data id now_t)
  end.

(** [remove(id, callback)] *)
Definition remove (id : value) : M (list record) :=
  let* task := tasks_read (Store.findById id) in
  let* task := defined task in
  let categoryId := get task "categoryId" in
  let* data := tasks_read (Store.find {["categoryId" := categoryId]}) in
  let* _ :=
    if (length data <=? 1)%nat
    then categories_write (Store.remove categoryId)
    else ret [] in
  tasks_write (Store.remove id).

(** [removeAll(callback)] *)
Definition removeAll : M (list record) :=
  let* _ := categories_write Store.drop in
  let* _ := tasks_write Store.drop in
  ret [].

End Model.

(** ** Model, the earlier revision

    The first of the two revisions of the model: category resolution is
    written out in [create], [read] with an object does not join, [update]
    is a plain [save], and [removeAll] drops the task store only. *)

Module Model0.

Definition create (title categoryName : string) (now_c now_t : Z)
    : M (list record) :=
  let title := Model.trimmed title in
  let categoryName := Model.trimmed categoryName in
  let newCategory : record := {["name" := VStr categoryName]} in
  let* data := categories_read (Store.find newCategory) in
  let* categoryId :=
    if (length data =? 0)%nat then
      let* data := categories_write (Store.save newCategory VUndef now_c) in
      first_id data
    else first_id data in
  let newTask : record :=
    {[ "title" := VStr title;
       "categoryId" := categoryId;
       "completed" := VBool false ]} in
  tasks_write (Store.save newTask VUndef now_t).

Definition read (q : query) : M found :=
  match q with
  | QCallback =>
      let* tasks := tasks_read Store.findAll in
      let* categories := categories_read Store.findAll in
      let caregoryMap := Model.categoryMap categories in
      ret (Records
             ((λ task,
                <["categoryName" :=
                    Model.map_get caregoryMap (get task "categoryId")]> task)
              <$> tasks))
  | QValue ((VStr _ | VNum _) as v) =>
      let query := parseInt v in
      let* task := tasks_read (Model.findById_parsed query) in
      let* task := defined task in
      let* category :=
        categories_read (Store.findById (get task "categoryId")) in
      let* category := defined category in
      ret (Single (<["categoryName" := get category "name"]> task))
  | QValue _ =>
      let* tasks := tasks_read (Store.find ∅) in
      ret (Records tasks)
  | QObject query =>
      let* tasks := tasks_read (Store.find query) in
      ret (Records tasks)
  end.

Definition update (id : value) (data : record) (now_t : Z)
    : M (list record) :=
  tasks_write (Store.save data id now_t).

Definition remove (id : value) : M (list record) :=
  let* task := tasks_read (Store.findById id) in
  let* task := defined task in
  let categoryId := get task "categoryId" in
  let* data := tasks_read (Store.find {["categoryId" := categoryId]}) in
  let* _ :=
    if (length data <? 2)%nat
    then categories_write (Store.remove categoryId)
    else ret [] in
  tasks_write (Store.remove id).

Definition removeAll : M (list record) :=
  tasks_write Store.drop.

End Model0.

(** ** Sequences of calls *)

Inductive call :=
  | Create (title categoryName : string) (now_c now_t : Z)
  | Update (id : value) (data : record) (now_c now_t : Z).

Definition exec (c : call) : M (list record) :=
  match c with
  | Create title categoryName now_c now_t =>
      Model.create title categoryName now_c now_t
  | Update id data now_c now_t => Model.update id data now_c now_t
  end.

(** The stores after a sequence of calls; a call that throws leaves what
    it wrote and the next call runs on that. *)
Definition run (calls : list call) (st : stores) : stores :=
  foldl (λ st c, (exec c st).2) st calls.

Definition completed {A} (o : outcome A) : bool :=
  match o with Done _ => true | Throw _ => false end.

(** Every call of the sequence reaches its callback. *)
Fixpoint completes (calls : list call) (st : stores) : bool :=
  match calls with
  | c :: calls => completed (exec c st).1 && completes calls (exec c st).2
  | [] => true
  end.

(** ** Predicates on collections and stores *)

(** The ids, the names and the category references held by a collection,
    in store order. *)
Definition ids (items : list record) : list value :=
  (λ item, get item "id") <$> items.

Definition names (items : list record) : list value :=
  (λ item, get item "name") <$> items.

Definition categoryIds (items : list record) : list value :=
  (λ item, get item "categoryId") <$> items.

(** The name of a category as a string, trimmed. *)
Definition trimmed_name (category : record) : string :=
  match get category "name" with VStr s => trim s | _ => "" end.

(** Every record of a collection has a number as its id, as [save]
    assigns it. *)
Definition numeric_ids (items : list record) : Prop :=
  Forall (λ item, ∃ n, get item "id" = VNum n) items.

(** The ids of a collection are numbers and pairwise distinct. *)
Definition well_keyed (items : list record) : Prop :=
  numeric_ids items ∧ NoDup (ids items).

(** A collection as [JSON.parse] returns it: no property is [undefined]. *)
Definition stored (items : list record) : Prop :=
  Forall (λ item, json_record item = item) items.

(** [t] is the only task of [st] that references the category [C]. *)
Definition last_reference (st : stores) (t C : record) : Prop :=
  filter (λ task, get task "categoryId" = get C "id") (taskStorage st) = [t].

(** Every category of [st] that a task of [st'] references is in [st']. *)
Definition referenced_kept (st st' : stores) : Prop :=
  ∀ D, D ∈ categoryStorage st →
    (∃ task, task ∈ taskStorage st' ∧
             get task "categoryId" = get D "id") →
    D ∈ categoryStorage st'.

(** No two categories have the same name, as stored. *)
Definition names_distinct (st : stores) : Prop :=
  NoDup (names (categoryStorage st)).

(** An operation keeps the names distinct, whether it returns or throws. *)
Definition keeps_names {A} (m : M A) : Prop :=
  ∀ st, names_distinct st → names_distinct (m st).2.

(** A string without white space and without a plus sign. *)
Definition plain (l : list ascii) : Prop :=
  Forall (λ c, is_space c = false ∧ Ascii.eqb c "+" = false) l.

(** ** States and requests used as examples *)

Definition no_stores : stores := Stores [] [].

(** A category and two tasks in it, as [create "A" "Work"] and
    [create "B" "Work"] leave them at the clock readings 100 to 103. *)
Definition work : record := {[ "id" := VNum 100; "name" := VStr "Work" ]}.

Definition task_a : record :=
  {[ "id" := VNum 101; "title" := VStr "A"; "categoryId" := VNum 100;
     "completed" := VBool false ]}.

Definition task_b : record :=
  {[ "id" := VNum 103; "title" := VStr "B"; "categoryId" := VNum 100;
     "completed" := VBool false ]}.

Definition two_in_work : stores := Stores [task_a; task_b] [work].

Definition one_in_work : stores := Stores [task_a] [work].

(** A task whose category is gone. *)
Definition dangling_task : record :=
  {[ "id" := VNum 1; "title" := VStr "A"; "categoryId" := VNum 7;
     "completed" := VBool false ]}.

(** A request that renames a task and names the category it is in. *)
Definition rename_title : record :=
  {[ "categoryName" := VStr "Work"; "title" := VStr "A2" ]}.

(** A request that renames a task and moves it to the category "Home". *)
Definition move_home : record :=
  {[ "categoryName" := VStr "Home"; "title" := VStr "A2" ]}.

(** A request that names the category of the task and also carries a
    [categoryId] of its own. *)
Definition both_fields : record :=
  {[ "categoryName" := VStr "Work"; "categoryId" := VNum 42 ]}.

(** Two tasks created in "Work", then one of them updated with the name
    " Work ". *)
Definition untrimmed_calls : list call :=
  [ Create "A" "Work" 100 101;
    Create "B" "Work" 102 103;
    Update (VNum 101) {["categoryName" := VStr " Work "]} 104 105 ].

(** ** [getCount] (the same in both revisions) *)

Module Count.

(** The object [{active, completed, total}] handed to the callback. *)
Record tally := Todos {
  active : Z;
  completed : Z;
  total : Z
}.

(** The body of [data.forEach]: one task is counted. *)
Definition count (todos : tally) (todo : record) : tally :=
  let todos :=
    if truthy (get todo "completed")
    then Todos (active todos) (completed todos + 1) (total todos)
    else Todos (active todos + 1) (completed todos) (total todos) in
  Todos (active todos) (completed todos) (total todos + 1).

(** [getCount(callback)] *)
Definition getCount : M tally :=
  let* data := tasks_read Store.findAll in
  ret (foldl count (Todos 0 0 0) data).

End Count.

(** Every property of the first query that the second also has holds the
    same value in both. *)
Definition agree (q1 q2 : record) : Prop :=
  ∀ k v1 v2, q1 !! k = Some v1 → q2 !! k = Some v2 → v1 = v2.

(** No record of the collection has an id loosely equal to [id]. *)
Definition unknown_id (id : value) (items : list record) : Prop :=
  Forall (λ item, loose_eq (get item "id") id = false) items.

(** The tasks that count as completed. *)
Definition done_tasks (items : list record) : list record :=
  filter (λ todo, truthy (get todo "completed") = true) items.

(** ** Sequences of all the writing operations *)

Inductive action :=
  | ACreate (title categoryName : string) (now_c now_t : Z)
  | AUpdate (id : value) (data : record) (now_c now_t : Z)
  | ARemove (id : value)
  | ARemoveAll.

Definition act (a : action) : M (list record) :=
  match a with
  | ACreate title categoryName now_c now_t =>
      Model.create title categoryName now_c now_t
  | AUpdate id data now_c now_t => Model.update id data now_c now_t
  | ARemove id => Model.remove id
  | ARemoveAll => Model.removeAll
  end.

(** The stores after a sequence of operations, throwing ones included. *)
Definition run_actions (actions : list action) (st : stores) : stores :=
  foldl (λ st a, (act a st).2) st actions.

(** An update is addressed by a nonzero number and its data carries
    neither an [id] nor a [categoryId]; other operations are free. *)
Definition addressed (a : action) : Prop :=
  match a with
  | AUpdate id data _ _ =>
      (∃ n, id = VNum n ∧ n ≠ 0) ∧
      data !! "id" = None ∧ data !! "categoryId" = None
  | _ => True
  end.

(** Ids are numbers in both stores and the [categoryId] of every task is
    the id of a stored category. *)
Definition no_dangling (st : stores) : Prop :=
  numeric_ids (taskStorage st) ∧
  numeric_ids (categoryStorage st) ∧
  Forall (λ task, get task "categoryId" ∈ ids (categoryStorage st))
    (taskStorage st).

(** A second category, "Home", with one task in it. *)
Definition home : record := {[ "id" := VNum 104; "name" := VStr "Home" ]}.

Definition task_h : record :=
  {[ "id" := VNum 105; "title" := VStr "H"; "categoryId" := VNum 104;
     "completed" := VBool false ]}.

Definition work_and_home : stores := Stores [task_a; task_h] [work; home].

(** The task that [create "A" "Work"] stores when both of its [save]
    calls read the clock at 100. *)
Definition work_task : record :=
  {[ "id" := VNum 100; "title" := VStr "A"; "categoryId" := VNum 100;
     "completed" := VBool false ]}.

(** A request that moves a task to the category "Home". *)
Definition to_home : record := {[ "categoryName" := VStr "Home" ]}.

(** * Properties *)

(** ** Values and strings *)

Example trim_Work : trim " Work " = "Work".
Proof. reflexivity. Qed.

Example to_number_padded : to_number "  -12 " = Some (-12).
Proof. reflexivity. Qed.

Example parseInt_ex : parseInt (VStr " 42px") = Some 42.
Proof. reflexivity. Qed.

Example loose_ex : loose_eq (VNum 5) (VStr "5") = true.
Proof. reflexivity. Qed.

(** ** Decimal notation *)

Lemma drop_space_plain (l : list ascii) : plain l → drop_space l = l.
Proof. destruct 1 as [|c l [Hc _] _]; simpl; [done|]. by rewrite Hc. Qed.

Lemma trim_plain (s : string) : plain (list_ascii_of_string s) → trim s = s.
Proof.
  intros H. unfold trim. rewrite (drop_space_plain _ H).
  rewrite drop_space_plain.
  - by rewrite rev_involutive, string_of_list_ascii_of_string.
  - unfold plain in *. rewrite Forall_forall in *. intros c Hc.
    apply H. apply list_elem_of_In. apply in_rev. by apply list_elem_of_In.
Qed.

Lemma uint_plain (d : Decimal.uint) :
  plain (list_ascii_of_string (NilEmpty.string_of_uint d)).
Proof. induction d; simpl; constructor; auto. Qed.

Lemma show_plain (n : Z) : plain (list_ascii_of_string (show n)).
Proof.
  unfold show, NilZero.string_of_int, NilZero.string_of_uint.
  destruct (Z.to_int n) as [d|d]; destruct d; simpl;
    repeat (constructor; auto); apply uint_plain.
Qed.

(** The decimal notation of [n] denotes [n]. *)
Lemma to_number_show (n : Z) : to_number (show n) = Some n.
Proof.
  unfold to_number. rewrite (trim_plain _ (show_plain n)).
  assert (Hparse : NilZero.int_of_string (show n) = Some (Z.to_int n)).
  { apply NilZero.isi; destruct n; simpl; try discriminate;
      intros [= H]; by apply DecimalPos.Unsigned.to_uint_nonnil in H. }
  pose proof (show_plain n) as Hplain.
  destruct (show n) as [|c t]; [discriminate|].
  simpl in Hplain. apply Forall_cons in Hplain as [[_ ->] _].
  rewrite Hparse. simpl. by rewrite DecimalZ.of_to.
Qed.

(** A number is loosely equal to the decimal notation of itself only. *)
Lemma loose_eq_num_show (m n : Z) :
  loose_eq (VNum m) (VStr (show n)) = (m =? n)%Z.
Proof. simpl. unfold num_eq_str. by rewrite to_number_show. Qed.

(** ** Records and queries *)

Lemma get_json_record (r : record) (k : string) :
  get (json_record r) k = get r k.
Proof.
  unfold get, json_record.
  destruct (r !! k) as [v|] eqn:E.
  - destruct (decide (v = VUndef)) as [->|Hv].
    + rewrite map_lookup_filter_None_2; [done|].
      right. intros x Hx. rewrite Hx in E. injection E as ->. simpl. tauto.
    + erewrite map_lookup_filter_Some_2; eauto.
  - rewrite map_lookup_filter_None_2; [done|]. by left.
Qed.

Lemma get_insert_eq (r : record) (k : string) (v : value) :
  get (<[k := v]> r) k = v.
Proof. unfold get. by rewrite lookup_insert_eq. Qed.

Lemma get_insert_ne (r : record) (k k' : string) (v : value) :
  k ≠ k' → get (<[k := v]> r) k' = get r k'.
Proof. intros. unfold get. by rewrite lookup_insert_ne. Qed.

Lemma matches_spec (query item : record) :
  Store.matches query item = true ↔
  ∀ q v, query !! q = Some v → get item q = v.
Proof. unfold Store.matches. rewrite bool_decide_eq_true. reflexivity. Qed.

Lemma matches_singleton (k : string) (v : value) (item : record) :
  Store.matches {[k := v]} item = bool_decide (get item k = v).
Proof.
  apply bool_decide_ext. rewrite map_Forall_singleton. reflexivity.
Qed.

Lemma find_filter (query : record) (items : list record) :
  Store.find query items =
  filter (λ item, map_Forall (λ q v, get item q = v) query) items.
Proof.
  unfold Store.find. induction items as [|item items IH]; [done|].
  simpl. rewrite filter_cons, IH. unfold Store.matches.
  destruct (decide (map_Forall (λ q v, get item q = v) query)) as [H|H].
  - by rewrite bool_decide_eq_true_2.
  - by rewrite bool_decide_eq_false_2.
Qed.

Lemma get_assign_l (upd item : record) (k : string) (x : value) :
  upd !! k = Some x → get (assign upd item) k = x.
Proof.
  intros H. unfold get, assign. by erewrite lookup_union_Some_l.
Qed.

Lemma get_assign_r (upd item : record) (k : string) :
  upd !! k = None → get (assign upd item) k = get item k.
Proof.
  intros H. unfold get, assign. by rewrite lookup_union_r.
Qed.

Lemma filter_none {A} (P : A → Prop) `{∀ x, Decision (P x)} (l : list A) :
  Forall (λ x, ¬ P x) l ↔ filter P l = [].
Proof.
  induction l as [|x l IH]; [done|].
  rewrite Forall_cons, filter_cons. destruct (decide (P x)); split.
  - tauto.
  - discriminate.
  - intros [_ Hl]. by apply IH.
  - intros Hl. split; [done|]. by apply IH.
Qed.

Lemma json_split (before after : list record) (t : record) :
  json (before ++ t :: after) = json before ++ json_record t :: json after.
Proof. unfold json. by rewrite fmap_app, fmap_cons. Qed.

(** ** Collections *)

Lemma json_app (l k : list record) : json (l ++ k) = json l ++ json k.
Proof. apply fmap_app. Qed.

Lemma json_stored (items : list record) : stored items → json items = items.
Proof.
  induction 1 as [|item items Hitem _ IH]; [done|].
  unfold json in *. rewrite fmap_cons. by rewrite Hitem, IH.
Qed.

Lemma ids_json (items : list record) : ids (json items) = ids items.
Proof.
  unfold ids, json. rewrite <- list_fmap_compose.
  apply list_fmap_ext. intros _ item _. apply get_json_record.
Qed.

Lemma names_json (items : list record) : names (json items) = names items.
Proof.
  unfold names, json. rewrite <- list_fmap_compose.
  apply list_fmap_ext. intros _ item _. apply get_json_record.
Qed.

Lemma elem_of_json (items : list record) (r : record) :
  r ∈ json items → ∃ item, item ∈ items ∧ ∀ k, get r k = get item k.
Proof.
  intros (item & -> & Hin)%list_elem_of_fmap.
  exists item. split; [done|]. intros k. apply get_json_record.
Qed.

Lemma find_singleton (k : string) (v : value) (items : list record) :
  Store.find {[k := v]} items = filter (λ item, get item k = v) items.
Proof.
  rewrite find_filter. apply list_filter_iff. intros item.
  by rewrite map_Forall_singleton.
Qed.

Lemma loose_eq_num (v : value) (n : Z) :
  v = VNum n → loose_eq v (VNum n) = true.
Proof. intros ->. apply Z.eqb_refl. Qed.

Lemma loose_eq_nums (m n : Z) :
  loose_eq (VNum m) (VNum n) = false ↔ VNum m ≠ VNum n.
Proof.
  simpl. rewrite Z.eqb_neq. split; [congruence|]. intros H ->. by apply H.
Qed.

(** [findById], [remove] and [save] on a collection split around the
    first record that the id designates. *)
Lemma findById_split (id : value) (before after : list record) (r : record) :
  Forall (λ item, loose_eq (get item "id") id = false) before →
  loose_eq (get r "id") id = true →
  Store.findById id (before ++ r :: after) = Some r.
Proof.
  intros Hskip Hhit. unfold Store.findById.
  induction Hskip as [|item before Hitem _ IH]; simpl.
  - by rewrite Hhit.
  - by rewrite Hitem.
Qed.

Lemma splice_first_split (id : value) (before after : list record)
    (r : record) :
  Forall (λ item, loose_eq (get item "id") id = false) before →
  loose_eq (get r "id") id = true →
  Store.splice_first id (before ++ r :: after) = before ++ after.
Proof.
  intros Hskip Hhit.
  induction Hskip as [|item before Hitem _ IH]; simpl.
  - by rewrite Hhit.
  - by rewrite Hitem, IH.
Qed.

Lemma splice_first_none (id : value) (items : list record) :
  Forall (λ item, loose_eq (get item "id") id = false) items →
  Store.splice_first id items = items.
Proof.
  induction 1 as [|item items Hitem _ IH]; simpl; [done|].
  by rewrite Hitem, IH.
Qed.

Lemma splice_first_sublist (id : value) (items : list record) :
  Store.splice_first id items `sublist_of` items.
Proof.
  induction items as [|item items IH]; simpl; [done|].
  destruct (loose_eq _ _).
  - by apply sublist_cons.
  - by apply sublist_skip.
Qed.

Lemma update_first_split (id : value) (updateData : record)
    (before after : list record) (r : record) :
  Forall (λ item, get item "id" ≠ id) before →
  get r "id" = id →
  Store.update_first id updateData (before ++ r :: after) =
  before ++ assign updateData r :: after.
Proof.
  intros Hskip Hhit. unfold strict_eq.
  induction Hskip as [|item before Hitem _ IH]; simpl; unfold strict_eq.
  - by rewrite bool_decide_eq_true_2.
  - by rewrite bool_decide_eq_false_2, IH.
Qed.

(** In a well-keyed collection a record is the first, and the only one,
    that its id designates. *)
Lemma well_keyed_split (items : list record) (r : record) (n : Z) :
  well_keyed items → r ∈ items → get r "id" = VNum n →
  ∃ before after, items = before ++ r :: after ∧
    Forall (λ item, loose_eq (get item "id") (VNum n) = false)
      (before ++ after) ∧
    Forall (λ item, get item "id" ≠ VNum n) (before ++ after).
Proof.
  intros [Hnum Hdup] Hin Hid.
  apply list_elem_of_split in Hin as (before & after & ->).
  exists before, after. split; [done|].
  assert (Hne : Forall (λ item, get item "id" ≠ VNum n) (before ++ after)).
  { unfold ids in Hdup. rewrite fmap_app, fmap_cons, Hid in Hdup.
    apply NoDup_app in Hdup as (_ & Hb & [Ha _]%NoDup_cons).
    apply Forall_app. split; apply Forall_forall; intros item Hitem Heq.
    - apply (Hb (VNum n)).
      + apply list_elem_of_fmap. eauto.
      + left.
    - apply Ha. apply list_elem_of_fmap. eauto. }
  split; [|done].
  assert (Hnum' : numeric_ids (before ++ after)).
  { unfold numeric_ids in *. rewrite Forall_app in *.
    destruct Hnum as [Hb Ha]. split; [done|].
    by apply Forall_cons in Ha as [_ Ha]. }
  unfold numeric_ids in Hnum'. rewrite Forall_forall in *.
  intros item Hitem. destruct (Hnum' item Hitem) as [m Hm].
  rewrite Hm. apply loose_eq_nums. rewrite <- Hm. by apply Hne.
Qed.

(** Discharges [well_keyed] on a concrete collection. *)
Ltac keyed :=
  split;
  [ repeat constructor; eexists; reflexivity
  | unfold ids; cbn [fmap list_fmap]; repeat constructor; set_solver ].

(** ** The monad *)

Lemma bind_done {A B} (m : M A) (k : A → M B) (st st' : stores) (a : A) :
  m st = (Done a, st') → bind m k st = k a st'.
Proof. unfold bind. by intros ->. Qed.

Lemma bind_throw {A B} (m : M A) (k : A → M B) (st st' : stores) (e : exn) :
  m st = (Throw e, st') → bind m k st = (Throw e, st').
Proof. unfold bind. by intros ->. Qed.

(** ** C7: ids assigned by [save] *)

(** What [save] without an id does: the record gets the clock reading as
    its id, is appended, and is handed alone to the callback. *)
Lemma save_new (updateData : record) (now : Z) (items : list record) :
  Store.save updateData VUndef now items =
    ([<["id" := VNum now]> updateData],
     json (items ++ [<["id" := VNum now]> updateData])).
Proof. reflexivity. Qed.

(** The new id is distinct from the ids in the collection when the clock
    reading is. *)
Lemma save_new_fresh (updateData : record) (now : Z) (items : list record) :
  Forall (λ item, get item "id" ≠ VNum now) items →
  ∀ new, (Store.save updateData VUndef now items).1 = [new] →
  Forall (λ item, get item "id" ≠ get new "id") items.
Proof.
  intros Hfresh new [= <-]. by rewrite get_insert_eq.
Qed.

(** C7 (where the code leaves the claim). [save] without an id takes the
    clock reading as the id and compares it with nothing: when a record of
    the collection already has that reading as its id, the appended record
    gets the same id. *)
Theorem save_same_instant_collides (updateData old : record) (now : Z)
    (items : list record) :
  old ∈ items →
  get old "id" = VNum now →
  ∃ new,
    Store.save updateData VUndef now items = ([new], json (items ++ [new])) ∧
    get new "id" = get old "id".
Proof.
  intros Hin Hid. exists (<["id" := VNum now]> updateData).
  split; [apply save_new|]. by rewrite get_insert_eq, Hid.
Qed.

(** Two saves at the same clock reading 100 on an empty collection. *)
Lemma save_same_instant_collides_witness :
  let first := (Store.save {["name" := VStr "a"]} VUndef 100 []).2 in
  ∃ old, old ∈ first ∧ get old "id" = VNum 100 ∧
  ∃ new,
    Store.save {["name" := VStr "b"]} VUndef 100 first =
      ([new], json (first ++ [new])) ∧
    get new "id" = get old "id".
Proof.
  cbv zeta.
  exists (json_record (<["id" := VNum 100]> {["name" := VStr "a"]})).
  assert (Hin : json_record (<["id" := VNum 100]> {["name" := VStr "a"]})
                ∈ (Store.save {["name" := VStr "a"]} VUndef 100 []).2).
  { apply list_elem_of_singleton. reflexivity. }
  assert (Hid : get (json_record (<["id" := VNum 100]> {["name" := VStr "a"]}))
                  "id" = VNum 100).
  { rewrite get_json_record. apply get_insert_eq. }
  split; [exact Hin|]. split; [exact Hid|].
  exact (save_same_instant_collides {["name" := VStr "b"]} _ 100 _ Hin Hid).
Defined.

(** ** C9: strict and loose comparison of ids *)



(** ** The map of category names *)

Lemma categoryMap_snoc (categories : list record) (c : record) :
  Model.categoryMap (categories ++ [c]) =
  <[get c "id" := get c "name"]> (Model.categoryMap categories).
Proof. unfold Model.categoryMap. by rewrite foldl_app. Qed.

Lemma categoryMap_none (categories : list record) (k : value) :
  Forall (λ c, get c "id" ≠ k) categories →
  Model.categoryMap categories !! k = None.
Proof.
  induction categories as [|c cs IH] using rev_ind; intros H.
  - reflexivity.
  - apply Forall_app in H as [Hcs Hc]. rewrite Forall_singleton in Hc.
    rewrite categoryMap_snoc, lookup_insert_ne by done. by apply IH.
Qed.

(** The map holds, under an id, the name of the last category with it. *)
Lemma categoryMap_last (before after : list record) (c : record) :
  Forall (λ d, get d "id" ≠ get c "id") after →
  Model.categoryMap (before ++ c :: after) !! get c "id" = Some (get c "name").
Proof.
  induction after as [|d ds IH] using rev_ind; intros H.
  - by rewrite categoryMap_snoc, lookup_insert_eq.
  - apply Forall_app in H as [Hds Hd]. rewrite Forall_singleton in Hd.
    replace (before ++ c :: ds ++ [d]) with ((before ++ c :: ds) ++ [d])
      by (by rewrite <- app_assoc).
    rewrite categoryMap_snoc, lookup_insert_ne by done. by apply IH.
Qed.

(** The bulk join leaves [categoryName] undefined on a task whose
    [categoryId] is the id of no category. *)
Lemma join_dangling (st : stores) (tasks : list record) :
  ∃ data, Model._joinCategories tasks st = (Done data, st) ∧
    ∀ r, r ∈ data →
      Forall (λ c, get c "id" ≠ get r "categoryId") (categoryStorage st) →
      get r "categoryName" = VUndef.
Proof.
  eexists. split; [reflexivity|].
  intros r Hr Hnone. apply list_elem_of_fmap in Hr as (task & -> & _).
  rewrite get_insert_ne in Hnone by done.
  rewrite get_insert_eq. unfold Model.map_get.
  by rewrite categoryMap_none.
Qed.

(** So does [read] without a query and with an object query. *)
Lemma read_bulk_dangling (st : stores) (q : query) :
  q = QCallback ∨ (∃ o, q = QObject o) →
  ∃ data, Model.read q st = (Done (Records data), st) ∧
    ∀ r, r ∈ data →
      Forall (λ c, get c "id" ≠ get r "categoryId") (categoryStorage st) →
      get r "categoryName" = VUndef.
Proof.
  intros Hq.
  assert (Hjoin : ∀ tasks, ∃ data,
    (bind (Model._joinCategories tasks) (λ data, ret (Records data))) st
      = (Done (Records data), st) ∧
    ∀ r, r ∈ data →
      Forall (λ c, get c "id" ≠ get r "categoryId") (categoryStorage st) →
      get r "categoryName" = VUndef).
  { intros tasks. destruct (join_dangling st tasks) as (data & Hrun & Hdata).
    exists data. split; [|exact Hdata]. by rewrite (bind_done _ _ _ _ _ Hrun). }
  destruct Hq as [->|[o ->]]; apply Hjoin.
Qed.

(** ** C6: [read] with an object *)

(** C6. [Model.read] with an object query [q] hands to its callback, in
    store order, exactly the tasks whose property equals the property of
    [q] for every property of [q], each with a [categoryName] added; the
    stores are not written.  The added [categoryName] is the name of the
    category whose id equals the [categoryId] of the task (the last such
    category of the store: the join goes through one map from id to name
    filled from all categories). *)
Theorem read_object_joins (st : stores) (q : record) :
  ∃ names : gmap value value,
    names = Model.categoryMap (categoryStorage st) ∧
    Model.read (QObject q) st =
      (Done (Records
         ((λ task, <["categoryName" :=
                       default VUndef (names !! get task "categoryId")]> task)
          <$> filter (λ task, map_Forall (λ k v, get task k = v) q)
                (taskStorage st))),
       st) ∧
    ∀ (task c : record) before after,
      categoryStorage st = before ++ c :: after →
      Forall (λ d, get d "id" ≠ get c "id") after →
      get task "categoryId" = get c "id" →
      default VUndef (names !! get task "categoryId") = get c "name".
Proof.
  eexists. split; [reflexivity|]. split.
  - unfold Model.read, bind, tasks_read, Model._joinCategories, categories_read.
    simpl. rewrite find_filter. reflexivity.
  - intros task c before after -> Hlast ->. by rewrite categoryMap_last.
Qed.

Lemma read_object_joins_witness :
  ∃ names : gmap value value,
    Model.read (QObject {["completed" := VBool false]}) two_in_work =
      (Done (Records
         ((λ task, <["categoryName" :=
                       default VUndef (names !! get task "categoryId")]> task)
          <$> filter (λ task, map_Forall (λ k v, get task k = v)
                                ({["completed" := VBool false]} : record))
                (taskStorage two_in_work))),
       two_in_work) ∧
    default VUndef (names !! get task_a "categoryId") = get work "name".
Proof.
  destruct (read_object_joins two_in_work {["completed" := VBool false]})
    as (names & _ & Hread & Hlast).
  exists names. split; [exact Hread|].
  apply (Hlast task_a work [] []); [reflexivity|constructor|reflexivity].
Defined.

(** ** C4 and C5: lookups that find nothing *)

(** C4 (where the code leaves the claim). When no task has the id,
    [Model.remove] and [Model.read] with that id read a property of
    [undefined]: both throw a [TypeError] instead of reaching their
    callback.  The stores are left as they were. *)
Theorem not_found_throws (st : stores) (n : Z) :
  Store.findById (VNum n) (taskStorage st) = None →
  Model.remove (VNum n) st = (Throw TypeError, st) ∧
  Model.read (QValue (VNum n)) st = (Throw TypeError, st).
Proof.
  intros Hnone. split.
  - unfold Model.remove, bind, tasks_read. rewrite Hnone. reflexivity.
  - unfold Model.read, bind, tasks_read. simpl. rewrite Hnone. reflexivity.
Qed.

Lemma not_found_throws_witness :
  Store.findById (VNum 5) (taskStorage no_stores) = None ∧
  Model.remove (VNum 5) no_stores = (Throw TypeError, no_stores) ∧
  Model.read (QValue (VNum 5)) no_stores = (Throw TypeError, no_stores).
Proof.
  split; [reflexivity|]. apply (not_found_throws no_stores 5). reflexivity.
Defined.

(** C5 (where the code leaves the claim). [Model.read] with a scalar id
    joins through [categoryStorage.findById]: when the task is found and
    its [categoryId] is the id of no category, the read throws a
    [TypeError] on [category.name]. *)
Theorem read_scalar_dangling_throws (st : stores) (n : Z) (task : record) :
  Store.findById (VNum n) (taskStorage st) = Some task →
  Store.findById (get task "categoryId") (categoryStorage st) = None →
  Model.read (QValue (VNum n)) st = (Throw TypeError, st).
Proof.
  intros Htask Hnone.
  unfold Model.read, bind, tasks_read, categories_read. simpl.
  rewrite Htask. simpl. rewrite Hnone. reflexivity.
Qed.

Lemma read_scalar_dangling_throws_witness :
  let st := Stores [dangling_task] [] in
  Store.findById (VNum 1) (taskStorage st) = Some dangling_task ∧
  Store.findById (get dangling_task "categoryId") (categoryStorage st)
    = None ∧
  Model.read (QValue (VNum 1)) st = (Throw TypeError, st).
Proof.
  assert (H1 : Store.findById (VNum 1) [dangling_task] = Some dangling_task)
    by reflexivity.
  assert (H2 : Store.findById (get dangling_task "categoryId") [] = None)
    by reflexivity.
  split; [exact H1|]. split; [exact H2|].
  exact (read_scalar_dangling_throws (Stores [dangling_task] []) 1
           dangling_task H1 H2).
Defined.

(** ** C8: [removeAll] *)

(** C8. From every state of the two stores, [Model.removeAll] leaves the
    task store and the category store empty and hands the empty array to
    its callback; a second [removeAll] right after does the same. *)
Theorem removeAll_clears (st : stores) :
  Model.removeAll st = (Done [], Stores [] []) ∧
  Model.removeAll (Model.removeAll st).2 = (Done [], Stores [] []).
Proof. split; reflexivity. Qed.

(** ** Category resolution *)

Lemma getCategoryIdByName_found (v : value) (now : Z) (st : stores)
    (c : record) (rest : list record) :
  Store.find {["name" := v]} (categoryStorage st) = c :: rest →
  Model._getCategoryIdByName v now st = (Done (get c "id"), st).
Proof.
  intros Hfind. unfold Model._getCategoryIdByName, bind, categories_read.
  rewrite Hfind. reflexivity.
Qed.

Lemma getCategoryIdByName_new (v : value) (now : Z) (st : stores) :
  Store.find {["name" := v]} (categoryStorage st) = [] →
  Model._getCategoryIdByName v now st =
    (Done (VNum now),
     Stores (taskStorage st)
       (json (categoryStorage st ++ [<["id" := VNum now]> {["name" := v]}]))).
Proof.
  intros Hfind. unfold Model._getCategoryIdByName, bind, categories_read.
  rewrite Hfind. cbn [length Nat.eqb].
  unfold categories_write, first_id, bind, defined, ret.
  rewrite save_new. cbn [head]. by rewrite get_insert_eq.
Qed.

(** Resolution always returns an id, leaves the tasks alone, and either
    reuses the first category with the name or appends a new one. *)
Lemma getCategoryIdByName_spec (v : value) (now : Z) (st : stores) :
  ∃ categoryId categories,
    Model._getCategoryIdByName v now st =
      (Done categoryId, Stores (taskStorage st) categories) ∧
    ((∃ c rest,
        Store.find {["name" := v]} (categoryStorage st) = c :: rest ∧
        categoryId = get c "id" ∧ categories = categoryStorage st) ∨
     (Store.find {["name" := v]} (categoryStorage st) = [] ∧
      categoryId = VNum now ∧
      categories =
        json (categoryStorage st ++ [<["id" := VNum now]> {["name" := v]}]))).
Proof.
  destruct (Store.find {["name" := v]} (categoryStorage st)) as [|c rest] eqn:E.
  - rewrite (getCategoryIdByName_new _ _ _ E).
    eexists _, _. split; [reflexivity|]. right. eauto.
  - rewrite (getCategoryIdByName_found _ _ _ _ _ E). destruct st as [ts cs].
    eexists _, _. split; [reflexivity|]. left. eauto.
Qed.

(** ** [remove] and [update] on a task that exists *)

Lemma remove_eval (st : stores) (n : Z) (t : record)
    (before after : list record) :
  taskStorage st = before ++ t :: after →
  Forall (λ item, loose_eq (get item "id") (VNum n) = false) before →
  get t "id" = VNum n →
  Model.remove (VNum n) st =
    (Done (before ++ after),
     Stores (json (before ++ after))
       (if (length (Store.find {["categoryId" := get t "categoryId"]}
                      (taskStorage st)) <=? 1)%nat
        then json (Store.splice_first (get t "categoryId")
                     (categoryStorage st))
        else categoryStorage st)).
Proof.
  destruct st as [tasks categories]. cbn [taskStorage categoryStorage].
  intros -> Hskip Hid.
  pose proof (loose_eq_num _ _ Hid) as Hhit.
  unfold Model.remove, bind, tasks_read, tasks_write, categories_write,
    defined, ret, Store.remove.
  cbn [taskStorage categoryStorage].
  rewrite (findById_split _ _ _ _ Hskip Hhit).
  destruct (length _ <=? 1)%nat; cbn [taskStorage categoryStorage];
    by rewrite (splice_first_split _ _ _ _ Hskip Hhit).
Qed.

Lemma update_eval (st : stores) (n : Z) (t : record)
    (before after : list record) (data : record) (v : value)
    (now_c now_t : Z) :
  taskStorage st = before ++ t :: after →
  Forall (λ item, loose_eq (get item "id") (VNum n) = false) before →
  Forall (λ item, get item "id" ≠ VNum n) before →
  get t "id" = VNum n →
  n ≠ 0 →
  data !! "categoryName" = Some v →
  ∃ newCategoryId categories,
    Model._getCategoryIdByName v now_c st =
      (Done newCategoryId, Stores (taskStorage st) categories) ∧
    let changed := negb (strict_eq newCategoryId (get t "categoryId")) in
    let data' :=
      if changed
      then <["categoryId" := newCategoryId]> (delete "categoryName" data)
      else delete "categoryName" data in
    Model.update (VNum n) data now_c now_t st =
      (Done (before ++ assign data' t :: after),
       Stores (json (before ++ assign data' t :: after))
         (if changed &&
             (length (Store.find {["categoryId" := get t "categoryId"]}
                        (taskStorage st)) <=? 1)%nat
          then json (Store.splice_first (get t "categoryId") categories)
          else categories)).
Proof.
  destruct st as [tasks categories0]. cbn [taskStorage categoryStorage].
  intros -> Hskip Hne Hid Hn Hdata.
  pose proof (loose_eq_num _ _ Hid) as Hhit.
  destruct (getCategoryIdByName_spec v now_c
              (Stores (before ++ t :: after) categories0))
    as (newCategoryId & categories & Hres & _).
  exists newCategoryId, categories. split; [exact Hres|].
  unfold Model.update. rewrite Hdata.
  rewrite (bind_done _ _ _ _ _ Hres).
  unfold bind at 1, tasks_read at 1. cbn [taskStorage].
  rewrite (findById_split _ _ _ _ Hskip Hhit).
  assert (Hsave : ∀ d cs,
    tasks_write (Store.save d (VNum n) now_t)
      (Stores (before ++ t :: after) cs) =
    (Done (before ++ assign d t :: after),
     Stores (json (before ++ assign d t :: after)) cs)).
  { intros d cs. unfold tasks_write, Store.save. cbn [truthy taskStorage].
    apply Z.eqb_neq in Hn. rewrite Hn. cbn [negb categoryStorage].
    by rewrite (update_first_split _ _ _ _ _ Hne Hid). }
  unfold Model.reassign, bind, defined, ret, tasks_read, categories_write,
    Store.remove.
  cbn [taskStorage categoryStorage].
  destruct (negb (strict_eq newCategoryId (get t "categoryId")));
    cbn [andb]; [|apply Hsave].
  destruct (length _ <=? 1)%nat; cbn [taskStorage categoryStorage];
    apply Hsave.
Qed.

(** ** C10: an update that names the category the task is in *)

(** C10 (amended). In a task store with distinct numeric ids let [t] be
    the task under the nonzero id [n], let [c] be a category of a store
    with pairwise distinct names, and let [t] hold the id of [c] as its
    [categoryId].  [Model.update] of [t] with data whose [categoryName] is
    exactly the name of [c], and which carries no [categoryId] of its own,
    leaves the category store as it was and the [categoryId] of the task
    unchanged: the stored task is [t] with the fields of data other than
    [categoryName] merged in. *)
Theorem update_same_category (st : stores) (n : Z) (t c : record)
    (data : record) (now_c now_t : Z) :
  well_keyed (taskStorage st) →
  t ∈ taskStorage st →
  get t "id" = VNum n →
  n ≠ 0 →
  NoDup (names (categoryStorage st)) →
  c ∈ categoryStorage st →
  get t "categoryId" = get c "id" →
  data !! "categoryName" = Some (get c "name") →
  data !! "categoryId" = None →
  ∃ before after merged,
    taskStorage st = before ++ t :: after ∧
    merged = assign (delete "categoryName" data) t ∧
    Model.update (VNum n) data now_c now_t st =
      (Done (before ++ merged :: after),
       Stores (json before ++ json_record merged :: json after)
         (categoryStorage st)) ∧
    get (json_record merged) "categoryId" = get t "categoryId".
Proof.
  intros Hkeyed Hin Hid Hn Hnames Hc Hcat Hdata Hown.
  destruct (well_keyed_split _ _ _ Hkeyed Hin Hid)
    as (before & after & Hts & Hloose & Hstrict).
  apply Forall_app in Hloose as [Hloose _].
  apply Forall_app in Hstrict as [Hstrict _].
  exists before, after, (assign (delete "categoryName" data) t).
  split; [exact Hts|]. split; [reflexivity|].
  (* resolution finds [c] *)
  assert (Hfind : ∃ rest,
    Store.find {["name" := get c "name"]} (categoryStorage st) = c :: rest).
  { rewrite find_singleton.
    apply list_elem_of_split in Hc as (cb & ca & Hcs). rewrite Hcs in *.
    unfold names in Hnames. rewrite fmap_app, fmap_cons in Hnames.
    apply NoDup_app in Hnames as (_ & Hb & _).
    rewrite filter_app, filter_cons_True by done.
    exists (filter (λ item, get item "name" = get c "name") ca).
    rewrite (proj1 (filter_none _ cb)); [done|].
    apply Forall_forall. intros d Hd Heq.
    apply (Hb (get d "name")).
    - apply list_elem_of_fmap. eauto.
    - rewrite Heq. left. }
  destruct Hfind as [rest Hfind].
  destruct (update_eval st n t before after data _ now_c now_t
              Hts Hloose Hstrict Hid Hn Hdata)
    as (cid & cats & Hres & Hupd).
  rewrite (getCategoryIdByName_found _ now_c st c rest Hfind) in Hres.
  injection Hres as <- Hst.
  assert (Hcats : cats = categoryStorage st) by (by rewrite Hst).
  cbv zeta in Hupd. rewrite <- Hcat in Hupd.
  unfold strict_eq in Hupd. rewrite bool_decide_eq_true_2 in Hupd by done.
  cbn [negb andb] in Hupd. split.
  - rewrite Hupd, json_split, Hcats. reflexivity.
  - rewrite get_json_record. apply get_assign_r.
    by rewrite lookup_delete_ne.
Qed.

Lemma update_same_category_witness :
  ∃ before after merged,
    taskStorage one_in_work = before ++ task_a :: after ∧
    merged = assign (delete "categoryName" rename_title) task_a ∧
    Model.update (VNum 101) rename_title 104 105 one_in_work =
      (Done (before ++ merged :: after),
       Stores (json before ++ json_record merged :: json after)
         (categoryStorage one_in_work)) ∧
    get (json_record merged) "categoryId" = get task_a "categoryId".
Proof.
  apply (update_same_category one_in_work 101 task_a work rename_title
           104 105).
  - keyed.
  - left.
  - reflexivity.
  - discriminate.
  - repeat constructor. set_solver.
  - left.
  - reflexivity.
  - reflexivity.
  - reflexivity.
Defined.

(** The claim as stated fails on data that carries a [categoryId] of its
    own: the task is in "Work", the data names "Work", and the stored
    [categoryId] becomes the 42 of the data. *)
Lemma update_same_category_counterexample :
  get task_a "categoryId" = get work "id" ∧
  both_fields !! "categoryName" = Some (get work "name") ∧
  (Model.update (VNum 101) both_fields 104 105 one_in_work).1 =
    Done [assign (delete "categoryName" both_fields) task_a] ∧
  categoryIds (taskStorage one_in_work) = [VNum 100] ∧
  categoryIds
    (taskStorage (Model.update (VNum 101) both_fields 104 105 one_in_work).2)
  ≠ categoryIds (taskStorage one_in_work).
Proof.
  assert (H : categoryIds
    (taskStorage (Model.update (VNum 101) both_fields 104 105 one_in_work).2)
    = [VNum 42]) by (vm_compute; reflexivity).
  repeat split; try (vm_compute; reflexivity).
  rewrite H. discriminate.
Qed.

(** ** C3: an update that names a category *)

(** C3 (amended). In a task store with distinct numeric ids let [t] be
    the task under the nonzero id [n], holding no [categoryName].  For
    data with a [categoryName] field and no [categoryId] field of its own,
    [Model.update] reaches its callback, and the stored task has no
    [categoryName] field, has as [categoryId] the id that category
    resolution returns for the name, and holds every other field of
    data. *)
Theorem update_with_categoryName (st : stores) (n : Z) (t : record)
    (data : record) (v : value) (now_c now_t : Z) :
  well_keyed (taskStorage st) →
  t ∈ taskStorage st →
  get t "id" = VNum n →
  n ≠ 0 →
  t !! "categoryName" = None →
  data !! "categoryName" = Some v →
  data !! "categoryId" = None →
  ∃ before after newCategoryId categories out st' t',
    taskStorage st = before ++ t :: after ∧
    Model._getCategoryIdByName v now_c st =
      (Done newCategoryId, Stores (taskStorage st) categories) ∧
    Model.update (VNum n) data now_c now_t st = (Done out, st') ∧
    taskStorage st' = json before ++ t' :: json after ∧
    t' !! "categoryName" = None ∧
    get t' "categoryId" = newCategoryId ∧
    ∀ k x, k ≠ "categoryName" → data !! k = Some x → get t' k = x.
Proof.
  intros Hkeyed Hin Hid Hn Hnone Hdata Hown.
  destruct (well_keyed_split _ _ _ Hkeyed Hin Hid)
    as (before & after & Hts & Hloose & Hstrict).
  apply Forall_app in Hloose as [Hloose _].
  apply Forall_app in Hstrict as [Hstrict _].
  destruct (update_eval st n t before after data v now_c now_t
              Hts Hloose Hstrict Hid Hn Hdata)
    as (cid & cats & Hres & Hupd).
  cbv zeta in Hupd.
  set (data' := if negb (strict_eq cid (get t "categoryId"))
                then <["categoryId" := cid]> (delete "categoryName" data)
                else delete "categoryName" data) in *.
  exists before, after, cid, cats. eexists _, _, (json_record (assign data' t)).
  split; [exact Hts|]. split; [exact Hres|]. split; [exact Hupd|].
  cbn [taskStorage]. split; [apply json_split|].
  assert (Hname : data' !! "categoryName" = None).
  { subst data'. destruct (negb _).
    - rewrite lookup_insert_ne by done. apply lookup_delete_eq.
    - apply lookup_delete_eq. }
  split; [|split].
  - unfold json_record. apply map_lookup_filter_None_2. left.
    unfold assign. by rewrite lookup_union_r.
  - rewrite get_json_record. subst data'. unfold strict_eq.
    destruct (decide (cid = get t "categoryId")) as [Heq|Hneq].
    + rewrite bool_decide_eq_true_2 by done. cbn [negb].
      rewrite get_assign_r; [done|]. by rewrite lookup_delete_ne.
    + rewrite bool_decide_eq_false_2 by done. cbn [negb].
      apply get_assign_l, lookup_insert_eq.
  - intros k x Hk Hx. rewrite get_json_record. apply get_assign_l.
    assert (k ≠ "categoryId") by (intros ->; congruence).
    subst data'. destruct (negb _).
    + rewrite lookup_insert_ne by done. by rewrite lookup_delete_ne.
    + by rewrite lookup_delete_ne.
Qed.

Lemma update_with_categoryName_witness :
  ∃ before after newCategoryId categories out st' t',
    taskStorage one_in_work = before ++ task_a :: after ∧
    Model._getCategoryIdByName (VStr "Home") 104 one_in_work =
      (Done newCategoryId, Stores (taskStorage one_in_work) categories) ∧
    Model.update (VNum 101) move_home 104 105 one_in_work = (Done out, st') ∧
    taskStorage st' = json before ++ t' :: json after ∧
    t' !! "categoryName" = None ∧
    get t' "categoryId" = newCategoryId ∧
    ∀ k x, k ≠ "categoryName" → move_home !! k = Some x → get t' k = x.
Proof.
  apply (update_with_categoryName one_in_work 101 task_a move_home
           (VStr "Home") 104 105).
  - keyed.
  - left.
  - reflexivity.
  - discriminate.
  - reflexivity.
  - reflexivity.
  - reflexivity.
Defined.

(** The claim as stated fails on data that carries a [categoryId] of its
    own: resolution of "Work" returns the id 100 of the stored category,
    and the stored task gets the 42 of the data as its [categoryId]. *)
Lemma update_with_categoryName_counterexample :
  Store.findById (VNum 101) (taskStorage one_in_work) = Some task_a ∧
  both_fields !! "categoryName" = Some (VStr "Work") ∧
  Model._getCategoryIdByName (VStr "Work") 104 one_in_work =
    (Done (VNum 100), one_in_work) ∧
  completed (Model.update (VNum 101) both_fields 104 105 one_in_work).1
    = true ∧
  ∀ t',
    t' ∈ taskStorage
           (Model.update (VNum 101) both_fields 104 105 one_in_work).2 →
    get t' "categoryId" ≠ VNum 100.
Proof.
  repeat split; try (vm_compute; reflexivity).
  intros t' Hin Heq.
  assert (H : VNum 100 ∈ categoryIds
    (taskStorage (Model.update (VNum 101) both_fields 104 105 one_in_work).2)).
  { rewrite <- Heq. unfold categoryIds. apply list_elem_of_fmap. eauto. }
  replace (categoryIds
    (taskStorage (Model.update (VNum 101) both_fields 104 105 one_in_work).2))
    with [VNum 42] in H by (vm_compute; reflexivity).
  apply list_elem_of_singleton in H. discriminate.
Qed.

(** [update] with a [categoryName], by what [findById] returns. *)
Lemma update_not_found (st : stores) (id : value) (data : record)
    (v : value) (now_c now_t : Z) :
  data !! "categoryName" = Some v →
  Store.findById id (taskStorage st) = None →
  Model.update id data now_c now_t st =
    (Throw TypeError, (Model._getCategoryIdByName v now_c st).2).
Proof.
  intros Hdata Hnone.
  destruct (getCategoryIdByName_spec v now_c st)
    as (cid & cats & Hres & _).
  unfold Model.update. rewrite Hdata, (bind_done _ _ _ _ _ Hres), Hres.
  unfold bind, tasks_read. cbn [taskStorage snd]. by rewrite Hnone.
Qed.

Lemma update_found (st : stores) (id : value) (t : record) (data : record)
    (v : value) (now_c now_t : Z) :
  data !! "categoryName" = Some v →
  Store.findById id (taskStorage st) = Some t →
  ∃ newCategoryId categories,
    Model._getCategoryIdByName v now_c st =
      (Done newCategoryId, Stores (taskStorage st) categories) ∧
    let changed := negb (strict_eq newCategoryId (get t "categoryId")) in
    Model.update id data now_c now_t st =
      tasks_write
        (Store.save
           (if changed
            then <["categoryId" := newCategoryId]>
                   (delete "categoryName" data)
            else delete "categoryName" data)
           id now_t)
        (Stores (taskStorage st)
           (if changed &&
               (length (Store.find {["categoryId" := get t "categoryId"]}
                          (taskStorage st)) <=? 1)%nat
            then json (Store.splice_first (get t "categoryId") categories)
            else categories)).
Proof.
  intros Hdata Hfound.
  destruct (getCategoryIdByName_spec v now_c st)
    as (cid & cats & Hres & _).
  exists cid, cats. split; [exact Hres|]. cbv zeta.
  unfold Model.update. rewrite Hdata, (bind_done _ _ _ _ _ Hres).
  unfold bind at 1, tasks_read at 1. cbn [taskStorage]. rewrite Hfound.
  unfold Model.reassign, bind, defined, ret, tasks_read, categories_write,
    Store.remove.
  cbn [taskStorage categoryStorage].
  destruct (negb (strict_eq cid (get t "categoryId"))); cbn [andb]; [|done].
  by destruct (length _ <=? 1)%nat.
Qed.

(** ** C2: cleanup of a category without tasks *)

Lemma filter_only {A} (P : A → Prop) `{∀ x, Decision (P x)}
    (before after : list A) (t : A) :
  P t →
  (length (filter P (before ++ t :: after)) ≤ 1)%nat →
  Forall (λ x, ¬ P x) before ∧ Forall (λ x, ¬ P x) after.
Proof.
  intros Ht. rewrite filter_app, filter_cons_True by done.
  rewrite length_app. cbn [length]. intros Hlen.
  assert (filter P before = [] ∧ filter P after = []) as [Hb Ha].
  { destruct (filter P before), (filter P after); cbn [length] in Hlen;
      (done || lia). }
  split; by apply (filter_none P).
Qed.

Lemma stored_app (l k : list record) : stored (l ++ k) ↔ stored l ∧ stored k.
Proof. apply Forall_app. Qed.

Lemma stored_json (items : list record) : stored (json items).
Proof.
  apply Forall_forall. intros r (item & -> & _)%list_elem_of_fmap.
  apply map_eq. intros k. unfold json_record.
  rewrite !map_lookup_filter. destruct (item !! k) as [x|]; [|done].
  cbn. case_guard; cbn; [|done]. by rewrite option_guard_True.
Qed.

(** What [categoryStorage.remove] leaves when the id designates [C] and
    [extra] was appended to the store. *)
Lemma splice_category (cb ca extra : list record) (C : record) (c : Z) :
  stored (cb ++ C :: ca) →
  get C "id" = VNum c →
  Forall (λ item, loose_eq (get item "id") (VNum c) = false) (cb ++ ca) →
  json (Store.splice_first (VNum c) ((cb ++ C :: ca) ++ extra)) =
  (cb ++ ca) ++ json extra.
Proof.
  intros Hst Hid Hloose.
  apply Forall_app in Hloose as [Hb _].
  rewrite <- app_assoc, <- app_comm_cons.
  rewrite (splice_first_split _ _ _ _ Hb (loose_eq_num _ _ Hid)).
  rewrite app_assoc, json_app. f_equal. apply json_stored.
  apply stored_app in Hst as [Hsb [_ Hsa]%Forall_cons].
  by apply stored_app.
Qed.

Lemma referenced_elsewhere (before after : list record) (t r : record)
    (v : value) :
  get t "categoryId" = v →
  (length (Store.find {["categoryId" := v]} (before ++ t :: after)) <=? 1)%nat
    = true →
  r ∈ json (before ++ after) →
  get r "categoryId" ≠ v.
Proof.
  intros Ht Hlen Hr Heq. rewrite find_singleton in Hlen.
  apply Nat.leb_le in Hlen.
  destruct (filter_only _ before after t Ht Hlen) as [Hb Ha].
  apply elem_of_json in Hr as (item & Hitem & Hget).
  rewrite Hget in Heq.
  apply elem_of_app in Hitem as [Hitem|Hitem].
  - rewrite Forall_forall in Hb. by apply (Hb item).
  - rewrite Forall_forall in Ha. by apply (Ha item).
Qed.

Section Cleanup.

(** The state: stores as [JSON.parse] returns them with distinct numeric
    ids, a task [t] under the id [n], and the category [C] that [t]
    references. *)
Variables (st : stores) (n : Z) (t C : record).
Hypothesis tasks_keyed : well_keyed (taskStorage st).
Hypothesis categories_keyed : well_keyed (categoryStorage st).
Hypothesis categories_stored : stored (categoryStorage st).
Hypothesis t_stored : t ∈ taskStorage st.
Hypothesis t_id : get t "id" = VNum n.
Hypothesis C_stored : C ∈ categoryStorage st.
Hypothesis t_in_C : get t "categoryId" = get C "id".

Lemma remove_cleanup :
  ∃ out st',
    Model.remove (VNum n) st = (Done out, st') ∧
    (last_reference st t C → C ∉ Store.findAll (categoryStorage st')) ∧
    referenced_kept st st'.
Proof.
  destruct (well_keyed_split _ _ _ tasks_keyed t_stored t_id)
    as (before & after & Hts & Hloose & _).
  apply Forall_app in Hloose as [Hloose _].
  destruct categories_keyed as [Hnum _].
  pose proof C_stored as HC.
  unfold numeric_ids in Hnum. rewrite Forall_forall in Hnum.
  destruct (Hnum C HC) as [c Hc].
  destruct (well_keyed_split _ _ _ categories_keyed HC Hc)
    as (cb & ca & Hcs & Hcl & Hcn).
  pose proof (remove_eval st n t before after Hts Hloose t_id) as Hrm.
  rewrite t_in_C, Hc in Hrm.
  assert (Hspl : json (Store.splice_first (VNum c) (categoryStorage st))
                 = cb ++ ca).
  { pose proof categories_stored as Hst. rewrite Hcs in Hst.
    pose proof (splice_category cb ca [] C c Hst Hc Hcl) as H.
    rewrite !app_nil_r in H. by rewrite Hcs. }
  rewrite Hspl in Hrm.
  assert (HCout : C ∉ cb ++ ca).
  { intros HCin. rewrite Forall_forall in Hcn. by apply (Hcn C HCin). }
  eexists _, _. split; [exact Hrm|]. split.
  - intros Hlast. unfold last_reference in Hlast.
    rewrite find_singleton, <- Hc, Hlast. exact HCout.
  - intros D HD (task & Htask & Href). cbn [taskStorage categoryStorage] in *.
    destruct (length _ <=? 1)%nat eqn:Hlen; [|exact HD].
    rewrite Hcs in HD. apply elem_of_app in HD as [HD|HD].
    { apply elem_of_app. by left. }
    apply elem_of_cons in HD as [->|HD]; [|apply elem_of_app; by right].
    exfalso. rewrite Hts in Hlen.
    apply (referenced_elsewhere before after t task (VNum c)); try done.
    + by rewrite t_in_C.
    + by rewrite Href.
Qed.

(** What resolution leaves in the category store: the store with possibly
    one record appended, whose id is the clock reading. *)
Lemma resolution_appends (v : value) (now : Z) (categoryId : value)
    (categories : list record) :
  Model._getCategoryIdByName v now st =
    (Done categoryId, Stores (taskStorage st) categories) →
  ∃ extra,
    categories = categoryStorage st ++ extra ∧
    ((extra = [] ∧ ∃ D, D ∈ categoryStorage st ∧ get D "name" = v ∧
                         categoryId = get D "id") ∨
     (categoryId = VNum now ∧
      ∃ new, extra = [new] ∧ get new "id" = VNum now)).
Proof.
  intros Hres.
  destruct (getCategoryIdByName_spec v now st)
    as (cid & cats & Hres' & Hcases).
  rewrite Hres in Hres'. injection Hres' as <- <-.
  destruct Hcases as [(D & rest & Hfind & -> & ->)|(Hfind & -> & ->)].
  - exists []. split; [by rewrite app_nil_r|]. left. split; [done|].
    exists D. rewrite find_singleton in Hfind.
    assert (HD : D ∈ filter (λ item, get item "name" = v)
                       (categoryStorage st))
      by (rewrite Hfind; left).
    apply list_elem_of_filter in HD as [HDname HD]. done.
  - eexists. split.
    + rewrite json_app, (json_stored _ categories_stored). reflexivity.
    + right. split; [done|]. eexists. split; [reflexivity|].
      rewrite get_json_record. apply get_insert_eq.
Qed.

Lemma update_cleanup (data : record) (v : value) (now_c now_t : Z) :
  n ≠ 0 →
  data !! "categoryName" = Some v →
  ∃ out st',
    Model.update (VNum n) data now_c now_t st = (Done out, st') ∧
    (last_reference st t C →
     v ≠ get C "name" →
     VNum now_c ∉ ids (categoryStorage st) →
     C ∉ Store.findAll (categoryStorage st')) ∧
    referenced_kept st st'.
Proof.
  intros Hn Hdata.
  destruct (well_keyed_split _ _ _ tasks_keyed t_stored t_id)
    as (before & after & Hts & Hloose & Hstrict).
  apply Forall_app in Hloose as [Hloose _].
  apply Forall_app in Hstrict as [Hstrict _].
  destruct categories_keyed as [Hnum _].
  pose proof C_stored as HC.
  unfold numeric_ids in Hnum. rewrite Forall_forall in Hnum.
  destruct (Hnum C HC) as [c Hc].
  destruct (well_keyed_split _ _ _ categories_keyed HC Hc)
    as (cb & ca & Hcs & Hcl & Hcn).
  destruct (update_eval st n t before after data v now_c now_t
              Hts Hloose Hstrict t_id Hn Hdata)
    as (cid & cats & Hres & Hupd).
  destruct (resolution_appends _ _ _ _ Hres) as (extra & -> & Hextra).
  cbv zeta in Hupd. rewrite t_in_C, Hc in Hupd.
  assert (Hspl :
    json (Store.splice_first (VNum c) (categoryStorage st ++ extra))
    = (cb ++ ca) ++ json extra).
  { pose proof categories_stored as Hst. rewrite Hcs in Hst.
    rewrite Hcs. by apply splice_category. }
  rewrite Hspl in Hupd.
  assert (HCout : C ∉ cb ++ ca).
  { intros HCin. rewrite Forall_forall in Hcn. by apply (Hcn C HCin). }
  eexists _, _. split; [exact Hupd|]. cbn [taskStorage categoryStorage].
  split.
  - intros Hlast Hname Hfresh. unfold last_reference in Hlast.
    rewrite find_singleton, <- Hc, Hlast, Hc. cbn [length Nat.leb].
    rewrite andb_true_r. unfold Store.findAll, strict_eq.
    assert (Hchanged : cid ≠ VNum c).
    { destruct Hextra as [(_ & D & HD & HDname & ->)|(-> & _)].
      - rewrite Hcs in HD. apply elem_of_app in HD as [HD|HD].
        + rewrite Forall_forall in Hcn. apply (Hcn D).
          apply elem_of_app. by left.
        + apply elem_of_cons in HD as [->|HD]; [congruence|].
          rewrite Forall_forall in Hcn. apply (Hcn D).
          apply elem_of_app. by right.
      - intros Heq. apply Hfresh. rewrite Heq, <- Hc.
        unfold ids. apply list_elem_of_fmap. by exists C. }
    rewrite bool_decide_eq_false_2 by done. cbn [negb].
    intros [HCin|HCin]%elem_of_app; [by apply HCout|].
    destruct Hextra as [(-> & _)|(-> & new & -> & Hnew)].
    + by apply elem_of_nil in HCin.
    + apply elem_of_json in HCin as (item & ->%list_elem_of_singleton & Hget).
      apply Hchanged. by rewrite <- Hc, Hget.
  - intros D HD (task & Htask & Href).
    destruct (negb (strict_eq cid (VNum c))) eqn:Hchanged;
      cbn [andb] in *; [|apply elem_of_app; by left].
    destruct (length _ <=? 1)%nat eqn:Hlen;
      [|apply elem_of_app; by left].
    rewrite Hcs in HD. apply elem_of_app in HD as [HD|HD].
    { apply elem_of_app. left. apply elem_of_app. by left. }
    apply elem_of_cons in HD as [->|HD];
      [|apply elem_of_app; left; apply elem_of_app; by right].
    exfalso. rewrite Hts in Hlen.
    rewrite json_split in Htask.
    assert (Hprev : get t "categoryId" = VNum c) by (by rewrite t_in_C).
    apply elem_of_app in Htask as [Htask|Htask].
    { apply (referenced_elsewhere before after t task (VNum c)); try done.
      - rewrite json_app. apply elem_of_app. by left.
      - by rewrite Href. }
    apply elem_of_cons in Htask as [->|Htask].
    + rewrite get_json_record in Href.
      rewrite get_assign_l with (x := cid) in Href
        by apply lookup_insert_eq.
      unfold strict_eq in Hchanged. apply negb_true_iff in Hchanged.
      apply bool_decide_eq_false in Hchanged. apply Hchanged. congruence.
    + apply (referenced_elsewhere before after t task (VNum c)); try done.
      * rewrite json_app. apply elem_of_app. by right.
      * by rewrite Href.
Qed.

(** Cleanup where ids are distinct.  In stores as [JSON.parse] returns
    them, with distinct numeric ids, let the task [t] under the id [n]
    reference the category [C].
    - [Model.remove] of [t] reaches its callback.  When [t] is the only
      task that references [C], [C] is no longer in the result of
      [findAll] on the category store; and every category that a
      remaining task references is still in the category store.
    - The same holds for [Model.update] of [t] (under a nonzero id) with
      data whose [categoryName] differs from the name of [C], when a
      category created for the name gets an id that no category has. *)
Theorem orphan_cleanup :
  (∃ out st',
     Model.remove (VNum n) st = (Done out, st') ∧
     (last_reference st t C → C ∉ Store.findAll (categoryStorage st')) ∧
     referenced_kept st st') ∧
  (∀ (data : record) (v : value) (now_c now_t : Z),
     n ≠ 0 →
     data !! "categoryName" = Some v →
     ∃ out st',
       Model.update (VNum n) data now_c now_t st = (Done out, st') ∧
       (last_reference st t C →
        v ≠ get C "name" →
        VNum now_c ∉ ids (categoryStorage st) →
        C ∉ Store.findAll (categoryStorage st')) ∧
       referenced_kept st st').
Proof.
  split.
  - exact remove_cleanup.
  - intros data v now_c now_t. apply update_cleanup.
Qed.

End Cleanup.

(** On a store with two categories: the last task of "Work" is removed,
    or moved to "Home"; "Work" goes and "Home", which a remaining task
    references, stays. *)
Lemma orphan_cleanup_witness :
  (∃ out st',
     Model.remove (VNum 101) work_and_home = (Done out, st') ∧
     (work ∉ Store.findAll (categoryStorage st')) ∧
     (∃ task, task ∈ taskStorage st' ∧
              get task "categoryId" = get home "id") ∧
     home ∈ categoryStorage st') ∧
  (∃ out st',
     Model.update (VNum 101) move_home 106 107 work_and_home
       = (Done out, st') ∧
     (work ∉ Store.findAll (categoryStorage st')) ∧
     (∃ task, task ∈ taskStorage st' ∧
              get task "categoryId" = get home "id") ∧
     home ∈ categoryStorage st').
Proof.
  assert (Hids : ∀ a b : Z, a ≠ b → NoDup [VNum a; VNum b]).
  { intros a b Hab. apply NoDup_cons. split; [|apply NoDup_singleton].
    intros H%list_elem_of_singleton. congruence. }
  assert (Hts : well_keyed (taskStorage work_and_home)).
  { split; [repeat constructor; eexists; reflexivity|].
    change (ids (taskStorage work_and_home)) with [VNum 101; VNum 105].
    by apply Hids. }
  assert (Hcs : well_keyed (categoryStorage work_and_home)).
  { split; [repeat constructor; eexists; reflexivity|].
    change (ids (categoryStorage work_and_home)) with [VNum 100; VNum 104].
    by apply Hids. }
  assert (Hst : stored (categoryStorage work_and_home)).
  { repeat constructor. }
  assert (Ht : task_a ∈ taskStorage work_and_home) by left.
  assert (Hid : get task_a "id" = VNum 101) by reflexivity.
  assert (HC : work ∈ categoryStorage work_and_home) by left.
  assert (Href : get task_a "categoryId" = get work "id") by reflexivity.
  assert (Hlast : last_reference work_and_home task_a work) by reflexivity.
  assert (Hhome : home ∈ categoryStorage work_and_home) by (right; left).
  destruct (orphan_cleanup work_and_home 101 task_a work Hts Hcs Hst Ht Hid
              HC Href) as [Hrm Hup].
  split.
  - destruct Hrm as (out & st' & Hrun & Hgone & Hkept).
    assert (Htask : ∃ task, task ∈ taskStorage st' ∧
                            get task "categoryId" = get home "id").
    { assert (Hc : Model.remove (VNum 101) work_and_home =
                   (Done [task_h], Stores [task_h] [home]))
        by (vm_compute; reflexivity).
      rewrite Hc in Hrun. injection Hrun as _ <-.
      exists task_h. split; [left|reflexivity]. }
    exists out, st'. split; [exact Hrun|]. split; [exact (Hgone Hlast)|].
    split; [exact Htask|]. exact (Hkept home Hhome Htask).
  - assert (Hn : 101 ≠ 0) by discriminate.
    assert (Hdata : move_home !! "categoryName" = Some (VStr "Home"))
      by reflexivity.
    destruct (Hup move_home (VStr "Home") 106 107 Hn Hdata)
      as (out & st' & Hrun & Hgone & Hkept).
    assert (Htask : ∃ task, task ∈ taskStorage st' ∧
                            get task "categoryId" = get home "id").
    { assert (Hc : (Model.update (VNum 101) move_home 106 107
                      work_and_home).2 =
                   Stores [ <["categoryId" := VNum 104]>
                              (<["title" := VStr "A2"]> task_a); task_h ]
                          [home])
        by (vm_compute; reflexivity).
      rewrite Hrun in Hc. cbn [snd] in Hc. rewrite Hc.
      exists task_h. split; [right; left|reflexivity]. }
    exists out, st'. split; [exact Hrun|]. split.
    + apply (Hgone Hlast).
      * discriminate.
      * change (ids (categoryStorage work_and_home))
          with [VNum 100; VNum 104].
        intros [H|H%list_elem_of_singleton]%elem_of_cons; discriminate.
    + split; [exact Htask|]. exact (Hkept home Hhome Htask).
Defined.

(** C2 (where the code leaves the claim).  The id of a created category
    is the clock reading, compared with nothing.  When the task found
    under [id] references the category [C], the data names a category
    that is not stored yet, and the clock reading of its [save] is the
    id of [C], [update] resolves the new name to the id the task already
    holds: it reaches its callback without reassigning the task and
    without cleaning up, so [C] is still in the result of [findAll], next
    to a second category with the same id. *)
Theorem update_same_instant_keeps_category (st : stores) (id : value)
    (t C : record) (data : record) (v : value) (now_c now_t : Z) :
  Store.findById id (taskStorage st) = Some t →
  stored (categoryStorage st) →
  C ∈ categoryStorage st →
  get t "categoryId" = get C "id" →
  data !! "categoryName" = Some v →
  Store.find {["name" := v]} (categoryStorage st) = [] →
  get C "id" = VNum now_c →
  ∃ out st' created,
    Model.update id data now_c now_t st = (Done out, st') ∧
    categoryStorage st' = categoryStorage st ++ [created] ∧
    get created "name" = v ∧
    get created "id" = get C "id" ∧
    C ∈ Store.findAll (categoryStorage st').
Proof.
  intros Hfound Hst HC Href Hdata Hfind Hclock.
  destruct (update_found st id t data v now_c now_t Hdata Hfound)
    as (cid & cats & Hres & Hupd).
  rewrite (getCategoryIdByName_new _ _ _ Hfind) in Hres.
  injection Hres as <- <-. cbv zeta in Hupd.
  rewrite Href, Hclock in Hupd. unfold strict_eq in Hupd.
  rewrite bool_decide_eq_true_2 in Hupd by done. cbn [negb andb] in Hupd.
  rewrite json_app, (json_stored _ Hst) in Hupd.
  unfold json in Hupd. cbn [fmap list_fmap] in Hupd.
  unfold tasks_write in Hupd. cbn [taskStorage categoryStorage] in Hupd.
  destruct (Store.save _ id now_t (taskStorage st)) as [out items].
  eexists out, _, _. split; [exact Hupd|]. cbn [categoryStorage].
  split; [reflexivity|]. split; [|split].
  - rewrite get_json_record, get_insert_ne by done.
    unfold get. by rewrite lookup_singleton_eq.
  - by rewrite get_json_record, get_insert_eq, Hclock.
  - unfold Store.findAll. apply elem_of_app. by left.
Qed.

(** From empty stores: a task is created in "Work" and moved to "Home"
    within one millisecond.  The task is the only one of "Work", the
    data names another category, and "Work" is still stored. *)
Lemma update_same_instant_keeps_category_witness :
  let st := (Model.create "A" "Work" 100 100 no_stores).2 in
  categoryStorage st = [work] ∧
  taskStorage st = [work_task] ∧
  last_reference st work_task work ∧
  VStr "Home" ≠ get work "name" ∧
  ∃ out st' created,
    Model.update (VNum 100) to_home 100 100 st = (Done out, st') ∧
    categoryStorage st' = categoryStorage st ++ [created] ∧
    get created "name" = VStr "Home" ∧
    get created "id" = get work "id" ∧
    work ∈ Store.findAll (categoryStorage st').
Proof.
  cbv zeta.
  assert (Hst : (Model.create "A" "Work" 100 100 no_stores).2 =
                Stores [work_task] [work]) by (vm_compute; reflexivity).
  rewrite Hst. cbn [taskStorage categoryStorage].
  split; [reflexivity|]. split; [reflexivity|]. split; [reflexivity|].
  split; [discriminate|].
  apply (update_same_instant_keeps_category (Stores [work_task] [work])
           (VNum 100) work_task work to_home (VStr "Home") 100 100).
  - reflexivity.
  - repeat constructor.
  - left.
  - reflexivity.
  - reflexivity.
  - reflexivity.
  - reflexivity.
Defined.

(** ** C1: names of categories *)

(** C1 (where the code leaves the claim). [create] trims the category
    name, [update] resolves the name as given.  After two tasks are
    created in "Work" and one of them is updated with the name " Work ",
    every call having reached its callback, the category store holds
    "Work" and " Work ": two categories with the same trimmed name. *)
Theorem update_keeps_untrimmed_name :
  completes untrimmed_calls no_stores = true ∧
  names (categoryStorage (run untrimmed_calls no_stores)) =
    [VStr "Work"; VStr " Work "] ∧
  trimmed_name <$> categoryStorage (run untrimmed_calls no_stores) =
    ["Work"; "Work"] ∧
  ¬ NoDup (trimmed_name <$> categoryStorage (run untrimmed_calls no_stores)).
Proof.
  assert (H : trimmed_name <$> categoryStorage (run untrimmed_calls no_stores)
              = ["Work"; "Work"]) by (vm_compute; reflexivity).
  split; [vm_compute; reflexivity|]. split; [vm_compute; reflexivity|].
  split; [exact H|]. rewrite H. intros [Hnotin _]%NoDup_cons.
  apply Hnotin. left.
Qed.

(** What the code keeps instead: names are distinct as stored. *)

Lemma keeps_ret {A} (a : A) : keeps_names (ret a).
Proof. by intros st H. Qed.

Lemma keeps_throw {A} (e : exn) : keeps_names (throw e : M A).
Proof. by intros st H. Qed.

Lemma keeps_bind {A B} (m : M A) (k : A → M B) :
  keeps_names m → (∀ a, keeps_names (k a)) → keeps_names (bind m k).
Proof.
  intros Hm Hk st H. unfold bind. specialize (Hm st H).
  destruct (m st) as [[a|e] st']; cbn [snd] in *; [by apply Hk|done].
Qed.

Lemma keeps_tasks_read {A} (f : list record → A) : keeps_names (tasks_read f).
Proof. by intros st H. Qed.

Lemma keeps_categories_read {A} (f : list record → A) :
  keeps_names (categories_read f).
Proof. by intros st H. Qed.

Lemma keeps_tasks_write {A} (f : list record → A * list record) :
  keeps_names (tasks_write f).
Proof.
  intros st H. unfold tasks_write. by destruct (f (taskStorage st)).
Qed.

Lemma keeps_remove_category (id : value) :
  keeps_names (categories_write (Store.remove id)).
Proof.
  intros st H. unfold names_distinct, categories_write, Store.remove in *.
  cbn [snd categoryStorage]. rewrite names_json.
  eapply sublist_NoDup; [exact H|apply fmap_sublist, splice_first_sublist].
Qed.

Lemma keeps_resolution (v : value) (now : Z) :
  keeps_names (Model._getCategoryIdByName v now).
Proof.
  intros st H.
  destruct (getCategoryIdByName_spec v now st)
    as (cid & cats & -> & [(c & rest & _ & _ & ->)|(Hfind & _ & ->)]);
    unfold names_distinct in *; cbn [snd categoryStorage]; [done|].
  rewrite names_json. unfold names. rewrite fmap_app. cbn [fmap list_fmap].
  rewrite get_insert_ne by done. unfold get at 2.
  rewrite lookup_singleton_eq. cbn [default].
  apply NoDup_app. split; [exact H|]. split; [|apply NoDup_singleton].
  intros x Hx ->%list_elem_of_singleton.
  apply list_elem_of_fmap in Hx as (c & Hname & Hc).
  rewrite find_singleton in Hfind.
  by apply (filter_nil_not_elem_of _ _ c Hfind).
Qed.

Ltac keeps :=
  repeat first
    [ apply keeps_ret | apply keeps_throw | apply keeps_tasks_read
    | apply keeps_categories_read | apply keeps_tasks_write
    | apply keeps_remove_category | apply keeps_resolution
    | apply keeps_bind; [|intros ?]
    | match goal with
      | |- keeps_names (if ?b then _ else _) => destruct b
      | |- keeps_names (match ?x with _ => _ end) => destruct x
      end ].

Lemma keeps_exec (c : call) : keeps_names (exec c).
Proof.
  destruct c as [title categoryName now_c now_t|id data now_c now_t];
    unfold exec, Model.create, Model.update, Model.reassign, defined; keeps.
Qed.

(** From empty stores, after every sequence of [create] and [update]
    calls, no two categories have the same name as stored. *)
Theorem names_stay_distinct (calls : list call) :
  names_distinct (run calls no_stores).
Proof.
  assert (H : ∀ st, names_distinct st → names_distinct (run calls st)).
  { induction calls as [|c calls IH]; intros st Hst; [done|].
    apply IH. by apply keeps_exec. }
  apply H. constructor.
Qed.

(** ** The earlier revision *)

(** [remove] tests [data.length < 2] in the earlier revision and
    [data.length <= 1] in the current one: the two agree. *)
Lemma remove_revisions_agree (id : value) (st : stores) :
  Model0.remove id st = Model.remove id st.
Proof.
  unfold Model0.remove, Model.remove, bind.
  destruct (tasks_read (Store.findById id) st) as [[task|e] st1]; [|done].
  destruct (defined task st1) as [[task'|e] st2]; [|done].
  destruct (tasks_read _ st2) as [[data|e] st3]; [|done].
  replace (length data <? 2)%nat with (length data <=? 1)%nat; [done|].
  destruct (Nat.leb_spec (length data) 1), (Nat.ltb_spec (length data) 2);
    (done || lia).
Qed.

(** The earlier [removeAll] leaves the category store as it was. *)
Lemma removeAll_earlier (st : stores) :
  Model0.removeAll st = (Done [], Stores [] (categoryStorage st)).
Proof. reflexivity. Qed.

(** The earlier [update] stores a [categoryName] of the data on the task
    and does not touch the category store. *)
Lemma update_earlier :
  (Model0.update (VNum 101) move_home 105 one_in_work).2 =
  Stores [ <["categoryName" := VStr "Home"]> (<["title" := VStr "A2"]> task_a) ]
         [work].
Proof. vm_compute. reflexivity. Qed.

(** The earlier [read] with an object returns the matching tasks as
    stored, without a [categoryName]. *)
Lemma read_object_earlier (st : stores) (q : record) :
  Model0.read (QObject q) st =
    (Done (Records (Store.find q (taskStorage st))), st).
Proof. reflexivity. Qed.

(** * Further properties *)

(** ** The store: lookup, update and removal by id *)

Lemma loose_eq_refl (v : value) : loose_eq v v = true.
Proof.
  destruct v as [| |b|n|s]; simpl; try done.
  - by destruct b.
  - apply Z.eqb_refl.
  - apply String.eqb_refl.
Qed.

Lemma findById_None (id : value) (items : list record) :
  Store.findById id items = None ↔ unknown_id id items.
Proof.
  unfold Store.findById, unknown_id. induction items as [|item items IH].
  - split; [constructor|done].
  - simpl. rewrite Forall_cons. destruct (loose_eq _ _); split.
    + discriminate.
    + intros [? _]. discriminate.
    + intros H. split; [done|]. by apply IH.
    + intros [_ H]. by apply IH.
Qed.

Lemma findById_Some (id : value) (items : list record) (r : record) :
  Store.findById id items = Some r →
  ∃ before after,
    items = before ++ r :: after ∧ unknown_id id before ∧
    loose_eq (get r "id") id = true.
Proof.
  unfold Store.findById, unknown_id. induction items as [|item items IH].
  - discriminate.
  - simpl. destruct (loose_eq (get item "id") id) eqn:E.
    + intros [= ->]. exists [], items. by repeat split.
    + intros H. destruct (IH H) as (before & after & -> & Hb & Hr).
      exists (item :: before), after. repeat split; [|done].
      by constructor.
Qed.

Lemma unknown_id_json (id : value) (items : list record) :
  unknown_id id items → unknown_id id (json items).
Proof.
  unfold unknown_id, json. rewrite Forall_fmap. intros H.
  eapply Forall_impl; [exact H|].
  intros item Hitem. cbn. by rewrite get_json_record.
Qed.

(** [remove] deletes exactly the record that [findById] returns for the
    same id, and nothing when [findById] returns [undefined]. *)
Theorem remove_deletes_found (id : value) (items : list record) :
  match Store.findById id items with
  | Some r =>
      ∃ before after,
        items = before ++ r :: after ∧
        Store.remove id items = (before ++ after, json (before ++ after))
  | None => Store.remove id items = (items, json items)
  end.
Proof.
  destruct (Store.findById id items) as [r|] eqn:E.
  - apply findById_Some in E as (before & after & -> & Hb & Hr).
    exists before, after. split; [done|].
    unfold Store.remove. by rewrite splice_first_split.
  - apply findById_None in E. unfold Store.remove.
    by rewrite splice_first_none.
Qed.

(** [save] with an id merges into the first record with that id: the
    record gets every property of the data, keeps its other properties,
    and the records around it are as they were. *)
Theorem save_merges (updateData : record) (id : value) (now : Z)
    (before after : list record) (r : record) :
  truthy id = true →
  get r "id" = id →
  Forall (λ item, get item "id" ≠ id) before →
  ∃ merged,
    Store.save updateData id now (before ++ r :: after) =
      (before ++ merged :: after, json (before ++ merged :: after)) ∧
    (∀ k x, updateData !! k = Some x → get merged k = x) ∧
    (∀ k, updateData !! k = None → get merged k = get r k).
Proof.
  intros Hid Hr Hb. exists (assign updateData r). split; [|split].
  - unfold Store.save. rewrite Hid. by rewrite update_first_split.
  - intros k x. apply get_assign_l.
  - intros k. apply get_assign_r.
Qed.

Lemma save_merges_witness :
  ∃ merged,
    Store.save {["title" := VStr "A2"]} (VNum 103) 0 ([task_a] ++ task_b :: [])
      = ([task_a] ++ merged :: [], json ([task_a] ++ merged :: [])) ∧
    (∀ k x, ({["title" := VStr "A2"]} : record) !! k = Some x →
            get merged k = x) ∧
    (∀ k, ({["title" := VStr "A2"]} : record) !! k = None →
          get merged k = get task_b k).
Proof.
  apply (save_merges {["title" := VStr "A2"]} (VNum 103) 0 [task_a] []
           task_b).
  - reflexivity.
  - reflexivity.
  - repeat constructor. discriminate.
Defined.

Lemma update_first_none (id : value) (updateData : record)
    (items : list record) :
  Forall (λ item, get item "id" ≠ id) items →
  Store.update_first id updateData items = items.
Proof.
  induction 1 as [|item items Hitem _ IH]; [done|].
  simpl. unfold strict_eq. by rewrite bool_decide_eq_false_2, IH.
Qed.

(** [save] with an id that no record has is a no-op: the collection is
    handed to the callback and written back as it was. *)
Theorem save_unknown_id (updateData : record) (id : value) (now : Z)
    (items : list record) :
  truthy id = true →
  Forall (λ item, get item "id" ≠ id) items →
  stored items →
  Store.save updateData id now items = (items, items).
Proof.
  intros Hid Hnone Hst. unfold Store.save. rewrite Hid.
  rewrite (update_first_none _ _ _ Hnone). by rewrite json_stored.
Qed.

Lemma save_unknown_id_witness :
  Store.save {["title" := VStr "A2"]} (VNum 7) 0 [task_a; task_b] =
    ([task_a; task_b], [task_a; task_b]).
Proof.
  apply (save_unknown_id {["title" := VStr "A2"]} (VNum 7) 0
           [task_a; task_b]).
  - reflexivity.
  - repeat constructor; discriminate.
  - repeat constructor.
Defined.

(** Lookup after insertion: [findById] with the clock reading of a [save]
    without id returns the new record, unless a record of the collection
    already answered to that id; then it still returns that one. *)
Theorem findById_after_save (updateData : record) (now : Z)
    (items : list record) :
  Store.findById (VNum now) (Store.save updateData VUndef now items).2 =
  match Store.findById (VNum now) items with
  | Some r => Some (json_record r)
  | None => Some (json_record (<["id" := VNum now]> updateData))
  end.
Proof.
  rewrite save_new. cbn [snd]. rewrite json_app.
  destruct (Store.findById (VNum now) items) as [r|] eqn:E.
  - apply findById_Some in E as (before & after & -> & Hb & Hr).
    rewrite json_split, <- app_assoc, <- app_comm_cons.
    apply findById_split; [by apply unknown_id_json|].
    by rewrite get_json_record.
  - apply findById_None in E. unfold json at 2. cbn [fmap list_fmap].
    apply findById_split; [by apply unknown_id_json|].
    rewrite get_json_record, get_insert_eq. apply Z.eqb_refl.
Qed.

(** Insertion then removal: when no record answers to the clock reading,
    a [save] without id followed by [remove] of the new id gives back the
    collection. *)
Theorem remove_after_save (updateData : record) (now : Z)
    (items : list record) :
  unknown_id (VNum now) items →
  stored items →
  (Store.remove (VNum now) (Store.save updateData VUndef now items).2).2
  = items.
Proof.
  intros Hfresh Hst. rewrite save_new. cbn [snd]. rewrite json_app.
  unfold json at 2. cbn [fmap list_fmap]. unfold Store.remove. cbn [snd].
  rewrite splice_first_split.
  - by rewrite app_nil_r, (json_stored _ Hst), (json_stored _ Hst).
  - by apply unknown_id_json.
  - rewrite get_json_record, get_insert_eq. apply Z.eqb_refl.
Qed.

Lemma remove_after_save_witness :
  (Store.remove (VNum 105)
     (Store.save {["title" := VStr "C"]} VUndef 105 [task_a; task_b]).2).2
  = [task_a; task_b].
Proof.
  apply (remove_after_save {["title" := VStr "C"]} 105 [task_a; task_b]);
    repeat constructor.
Defined.

Lemma absent_unknown (n : Z) (items : list record) :
  numeric_ids items → VNum n ∉ ids items → unknown_id (VNum n) items.
Proof.
  unfold numeric_ids, unknown_id, ids. rewrite !Forall_forall.
  intros Hnum Hnot item Hin. destruct (Hnum item Hin) as [m Hm].
  rewrite Hm. apply loose_eq_nums. intros Heq. apply Hnot.
  apply list_elem_of_fmap. exists item. by rewrite Hm.
Qed.

(** In a collection with distinct numeric ids, a removed id is gone:
    [findById] after [remove] returns [undefined]. *)
Theorem findById_after_remove (n : Z) (items : list record) :
  well_keyed items →
  Store.findById (VNum n) (Store.remove (VNum n) items).2 = None.
Proof.
  intros [Hnum Hdup]. apply findById_None. unfold Store.remove. cbn [snd].
  apply unknown_id_json.
  induction items as [|item items IH]; [constructor|].
  apply Forall_cons in Hnum as [[m Hm] Hnum].
  unfold ids in Hdup. rewrite fmap_cons in Hdup.
  apply NoDup_cons in Hdup as [Hnotin Hdup].
  cbn [Store.splice_first]. rewrite Hm. cbn [loose_eq].
  destruct (Z.eqb_spec m n) as [->|Hne].
  - apply absent_unknown; [done|]. by rewrite <- Hm.
  - constructor; [|by apply IH]. rewrite Hm. simpl. by apply Z.eqb_neq.
Qed.

Lemma findById_after_remove_witness :
  Store.findById (VNum 101) (Store.remove (VNum 101) [task_a; task_b]).2
  = None.
Proof.
  apply (findById_after_remove 101 [task_a; task_b]). split.
  - repeat constructor; eexists; reflexivity.
  - change (ids [task_a; task_b]) with [VNum 101; VNum 103].
    apply NoDup_cons. split; [|apply NoDup_singleton].
    intros H%list_elem_of_singleton. discriminate.
Defined.

(** ** The store: queries *)

Lemma matches_union (q1 q2 item : record) :
  agree q1 q2 →
  map_Forall (λ k v, get item k = v) (q1 ∪ q2) ↔
  map_Forall (λ k v, get item k = v) q1 ∧
  map_Forall (λ k v, get item k = v) q2.
Proof.
  intros Hagree. unfold map_Forall. split.
  - intros H. split; intros k v Hk.
    + apply H. by apply lookup_union_Some_l.
    + destruct (q1 !! k) as [v1|] eqn:E.
      * rewrite <- (Hagree k v1 v E Hk). apply H.
        by apply lookup_union_Some_l.
      * apply H. by rewrite lookup_union_r.
  - intros [H1 H2] k v Hk. apply lookup_union_Some_raw in Hk as [Hk|[_ Hk]].
    + by apply H1.
    + by apply H2.
Qed.

(** Queries compose: filtering the result of [find] by a second query
    that agrees with the first on shared properties is one [find] with
    the properties of both; the empty query returns every record. *)
Theorem find_compose (q1 q2 : record) (items : list record) :
  agree q1 q2 →
  Store.find ∅ items = items ∧
  Store.find q1 (Store.find q2 items) = Store.find (q1 ∪ q2) items.
Proof.
  intros Hagree. split.
  - rewrite find_filter. induction items as [|item items IH]; [done|].
    rewrite filter_cons_True, IH; [done|]. apply map_Forall_empty.
  - rewrite !find_filter, list_filter_filter. apply list_filter_iff.
    intros item. by rewrite matches_union.
Qed.

Lemma find_compose_witness :
  Store.find ∅ [task_a; task_b] = [task_a; task_b] ∧
  Store.find {["completed" := VBool false]}
    (Store.find {["categoryId" := VNum 100]} [task_a; task_b]) =
  Store.find ({["completed" := VBool false]} ∪ {["categoryId" := VNum 100]})
    [task_a; task_b].
Proof.
  apply (find_compose {["completed" := VBool false]}
           {["categoryId" := VNum 100]} [task_a; task_b]).
  intros k v1 v2 H1 H2.
  apply lookup_singleton_Some in H1 as [<- _].
  apply lookup_singleton_Some in H2 as [H2 _]. discriminate.
Defined.

Lemma find_json (q : record) (items : list record) :
  Store.find q (json items) = json (Store.find q items).
Proof.
  unfold Store.find, json. induction items as [|item items IH]; [done|].
  cbn [fmap list_fmap List.filter] in *.
  assert (H : Store.matches q (json_record item) = Store.matches q item).
  { unfold Store.matches. apply bool_decide_ext. unfold map_Forall.
    split; intros H k v Hk; specialize (H k v Hk);
      by rewrite get_json_record in *. }
  rewrite H. destruct (Store.matches q item); cbn [fmap list_fmap];
    by rewrite IH.
Qed.

(** ** [getCount] *)

Lemma count_foldl (data : list record) (a c t : Z) :
  foldl Count.count (Count.Todos a c t) data =
  Count.Todos
    (a + (Z.of_nat (length data) - Z.of_nat (length (done_tasks data))))
    (c + Z.of_nat (length (done_tasks data)))
    (t + Z.of_nat (length data)).
Proof.
  revert a c t. induction data as [|todo data IH]; intros a c t.
  - cbn. f_equal; lia.
  - cbn [foldl]. unfold Count.count at 2, done_tasks.
    rewrite filter_cons. cbn [Count.active Count.completed Count.total].
    destruct (truthy (get todo "completed")) eqn:E.
    + rewrite decide_True by done. rewrite IH. unfold done_tasks.
      cbn [length Count.active Count.completed Count.total]. f_equal; lia.
    + rewrite decide_False by done. rewrite IH.
      unfold done_tasks.
      cbn [length Count.active Count.completed Count.total]. f_equal; lia.
Qed.


(** [getCount] hands over the number of tasks as [total], the number of
    tasks whose [completed] is truthy as [completed] and the rest as
    [active]; it does not write. *)
Theorem getCount_counts (st : stores) :
  ∃ todos,
    Count.getCount st = (Done todos, st) ∧
    Count.total todos = Z.of_nat (length (taskStorage st)) ∧
    Count.completed todos = Z.of_nat (length (done_tasks (taskStorage st))) ∧
    Count.active todos + Count.completed todos = Count.total todos.
Proof.
  eexists. split; [reflexivity|]. unfold Store.findAll.
  rewrite count_foldl. cbn [Count.active Count.completed Count.total].
  repeat split; lia.
Qed.

(** ** [create] *)

(** [create] always reaches its callback: it resolves the trimmed name,
    appends the task and hands it alone to the callback. *)
Lemma create_eval (st : stores) (title categoryName : string)
    (now_c now_t : Z) :
  ∃ categoryId categories newTask,
    Model._getCategoryIdByName (VStr (Model.trimmed categoryName)) now_c st =
      (Done categoryId, Stores (taskStorage st) categories) ∧
    newTask =
      <["id" := VNum now_t]>
        ({[ "title" := VStr (Model.trimmed title);
            "categoryId" := categoryId;
            "completed" := VBool false ]} : record) ∧
    Model.create title categoryName now_c now_t st =
      (Done [newTask],
       Stores (json (taskStorage st ++ [newTask])) categories).
Proof.
  destruct (getCategoryIdByName_spec (VStr (Model.trimmed categoryName))
              now_c st) as (cid & cats & Hres & _).
  eexists cid, cats, _. split; [exact Hres|]. split; [reflexivity|].
  unfold Model.create. rewrite (bind_done _ _ _ _ _ Hres).
  unfold tasks_write. by rewrite save_new.
Qed.

Lemma new_task_fields (title : string) (categoryId : value) (now_t : Z) :
  let newTask : record :=
    <["id" := VNum now_t]>
      ({[ "title" := VStr title; "categoryId" := categoryId;
          "completed" := VBool false ]} : record) in
  get newTask "id" = VNum now_t ∧
  get newTask "title" = VStr title ∧
  get newTask "categoryId" = categoryId ∧
  get newTask "completed" = VBool false.
Proof.
  cbv zeta. unfold get. repeat split.
Qed.


(** Two [create] calls whose category names trim to the same string share
    one category: the second call leaves the category store as the first
    left it, both tasks get the same [categoryId], and a category with
    that id and the trimmed name is stored. *)
Theorem create_reuses_category (st : stores)
    (title1 name1 title2 name2 : string) (c1 t1 c2 t2 : Z) :
  Model.trimmed name1 = Model.trimmed name2 →
  ∃ st1 st2 new1 new2 category,
    Model.create title1 name1 c1 t1 st = (Done [new1], st1) ∧
    Model.create title2 name2 c2 t2 st1 = (Done [new2], st2) ∧
    categoryStorage st2 = categoryStorage st1 ∧
    get new1 "categoryId" = get new2 "categoryId" ∧
    category ∈ categoryStorage st2 ∧
    get category "name" = VStr (Model.trimmed name1) ∧
    get category "id" = get new1 "categoryId".
Proof.
  intros Hname.
  destruct (create_eval st title1 name1 c1 t1)
    as (cid & cats & new1 & Hres & Hnew1 & Hcreate1).
  set (st1 := Stores (json (taskStorage st ++ [new1])) cats).
  (* after the first call the name is found, under the id [cid] *)
  assert (Hfound : ∃ category rest,
    Store.find {["name" := VStr (Model.trimmed name1)]} cats
      = category :: rest ∧ get category "id" = cid).
  { destruct (getCategoryIdByName_spec (VStr (Model.trimmed name1)) c1 st)
      as (cid' & cats' & Hres' & Hcases).
    rewrite Hres in Hres'. injection Hres' as <- <-.
    destruct Hcases as [(c & rest & Hfind & -> & ->)|(Hfind & -> & ->)].
    - by exists c, rest.
    - rewrite find_json, find_singleton, filter_app.
      rewrite find_singleton in Hfind. rewrite Hfind.
      rewrite filter_cons_True.
      + eexists _, _. split; [reflexivity|].
        rewrite get_json_record. apply get_insert_eq.
      + rewrite get_insert_ne by done. unfold get.
        by rewrite lookup_singleton_eq. }
  destruct Hfound as (category & rest & Hfind & Hid).
  destruct (create_eval st1 title2 name2 c2 t2)
    as (cid2 & cats2 & new2 & Hres2 & Hnew2 & Hcreate2).
  rewrite <- Hname in Hres2.
  rewrite (getCategoryIdByName_found _ c2 st1 category rest Hfind) in Hres2.
  injection Hres2 as <- <-.
  exists st1, (Stores (json (taskStorage st1 ++ [new2])) cats), new1, new2,
    category.
  split; [exact Hcreate1|]. split; [exact Hcreate2|]. split; [done|].
  assert (Hc1 : get new1 "categoryId" = cid).
  { subst new1. apply (new_task_fields (Model.trimmed title1) cid t1). }
  assert (Hc2 : get new2 "categoryId" = get category "id").
  { subst new2.
    apply (new_task_fields (Model.trimmed title2) (get category "id") t2). }
  split; [by rewrite Hc1, Hc2|]. split; [|split].
  - cbn [categoryStorage].
    assert (H : category ∈ Store.find
                  {["name" := VStr (Model.trimmed name1)]} cats)
      by (rewrite Hfind; left).
    rewrite find_singleton in H. by apply list_elem_of_filter in H as [_ H].
  - assert (H : category ∈ Store.find
                  {["name" := VStr (Model.trimmed name1)]} cats)
      by (rewrite Hfind; left).
    rewrite find_singleton in H. by apply list_elem_of_filter in H as [H _].
  - by rewrite Hc1.
Qed.

Lemma create_reuses_category_witness :
  ∃ st1 st2 new1 new2 category,
    Model.create "A" "Work" 100 101 no_stores = (Done [new1], st1) ∧
    Model.create "B" " Work " 102 103 st1 = (Done [new2], st2) ∧
    categoryStorage st2 = categoryStorage st1 ∧
    get new1 "categoryId" = get new2 "categoryId" ∧
    category ∈ categoryStorage st2 ∧
    get category "name" = VStr (Model.trimmed "Work") ∧
    get category "id" = get new1 "categoryId".
Proof.
  apply (create_reuses_category no_stores "A" "Work" "B" " Work "
           100 101 102 103).
  reflexivity.
Defined.

Lemma categoryMap_unique (categories : list record) (c : record) :
  NoDup (ids categories) → c ∈ categories →
  Model.categoryMap categories !! get c "id" = Some (get c "name").
Proof.
  intros Hdup (before & after & ->)%list_elem_of_split.
  apply categoryMap_last. unfold ids in Hdup.
  rewrite fmap_app, fmap_cons in Hdup.
  apply NoDup_app in Hdup as (_ & _ & [Hnotin _]%NoDup_cons).
  apply Forall_forall. intros d Hd Heq. apply Hnotin.
  apply list_elem_of_fmap. exists d. by rewrite Heq.
Qed.

(** After resolution a category with the name and the returned id is
    stored, and distinct ids stay distinct when a created category gets a
    clock reading that no category has. *)
Lemma resolution_stored (v : value) (now : Z) (st : stores)
    (categoryId : value) (categories : list record) :
  NoDup (ids (categoryStorage st)) →
  VNum now ∉ ids (categoryStorage st) →
  Model._getCategoryIdByName v now st =
    (Done categoryId, Stores (taskStorage st) categories) →
  NoDup (ids categories) ∧
  ∃ c, c ∈ categories ∧ get c "id" = categoryId ∧ get c "name" = v.
Proof.
  intros Hdup Hfresh Hres.
  destruct (getCategoryIdByName_spec v now st)
    as (cid & cats & Hres' & Hcases).
  rewrite Hres in Hres'. injection Hres' as <- <-.
  destruct Hcases as [(c & rest & Hfind & -> & ->)|(Hfind & -> & ->)].
  - split; [done|]. exists c.
    assert (H : c ∈ Store.find {["name" := v]} (categoryStorage st))
      by (rewrite Hfind; left).
    rewrite find_singleton in H. apply list_elem_of_filter in H as [H1 H2].
    done.
  - split.
    + rewrite ids_json. unfold ids. rewrite fmap_app. cbn [fmap list_fmap].
      rewrite get_insert_eq. apply NoDup_app.
      split; [done|]. split; [|apply NoDup_singleton].
      intros x Hx ->%list_elem_of_singleton. by apply Hfresh.
    + exists (json_record (<["id" := VNum now]> {["name" := v]})).
      split; [|split].
      * rewrite json_app. apply elem_of_app. right. left.
      * rewrite get_json_record. apply get_insert_eq.
      * rewrite get_json_record, get_insert_ne by done.
        unfold get. by rewrite lookup_singleton_eq.
Qed.

Lemma read_all_eval (st : stores) :
  Model.read QCallback st =
    (Done (Records
       ((λ task,
          <["categoryName" :=
              Model.map_get (Model.categoryMap (categoryStorage st))
                (get task "categoryId")]> task)
        <$> taskStorage st)),
     st).
Proof. reflexivity. Qed.

(** Create then read: when the category ids are distinct and a created
    category gets a clock reading that no category has, [create] reaches
    its callback and [read] without a query after it returns every task
    that was stored, in store order and joined with the name of its
    category, followed by the new task, with the trimmed title,
    [completed] false and the trimmed category name as [categoryName]. *)
Theorem read_after_create (st : stores) (title categoryName : string)
    (now_c now_t : Z) :
  NoDup (ids (categoryStorage st)) →
  VNum now_c ∉ ids (categoryStorage st) →
  ∃ out st' new,
    Model.create title categoryName now_c now_t st = (Done out, st') ∧
    Model.read QCallback st' =
      (Done (Records
         (((λ task,
             <["categoryName" :=
                 Model.map_get (Model.categoryMap (categoryStorage st'))
                   (get task "categoryId")]> task)
           <$> json (taskStorage st)) ++ [new])),
       st') ∧
    get new "id" = VNum now_t ∧
    get new "title" = VStr (Model.trimmed title) ∧
    get new "completed" = VBool false ∧
    get new "categoryName" = VStr (Model.trimmed categoryName).
Proof.
  intros Hdup Hfresh.
  destruct (create_eval st title categoryName now_c now_t)
    as (cid & cats & newTask & Hres & HnewTask & Hcreate).
  destruct (resolution_stored _ _ _ _ _ Hdup Hfresh Hres)
    as (Hdup' & c & Hc & Hcid & Hcname).
  destruct (new_task_fields (Model.trimmed title) cid now_t)
    as (Hid & Htitle & Hcat & Hcompleted).
  cbv zeta in Hid, Htitle, Hcat, Hcompleted. rewrite <- HnewTask in *.
  eexists _, _, _. split; [exact Hcreate|].
  rewrite read_all_eval. cbn [taskStorage categoryStorage].
  rewrite json_app, fmap_app. unfold json at 2. cbn [fmap list_fmap].
  split; [reflexivity|].
  rewrite !get_insert_ne by done. rewrite get_insert_eq.
  rewrite !get_json_record. repeat split; try done.
  rewrite Hcat, <- Hcid. unfold Model.map_get.
  by rewrite (categoryMap_unique _ _ Hdup' Hc), Hcname.
Qed.

(** A task created in "Home" beside the two tasks of "Work": the read
    returns those two with "Work" as [categoryName], then the new one. *)
Lemma read_after_create_witness :
  ∃ out st' new,
    Model.create " C " "Home" 104 105 two_in_work = (Done out, st') ∧
    Model.read QCallback st' =
      (Done (Records
         ([ <["categoryName" := VStr "Work"]> task_a;
            <["categoryName" := VStr "Work"]> task_b ] ++ [new])),
       st') ∧
    get new "id" = VNum 105 ∧
    get new "title" = VStr "C" ∧
    get new "completed" = VBool false ∧
    get new "categoryName" = VStr "Home".
Proof.
  destruct (read_after_create two_in_work " C " "Home" 104 105)
    as (out & st' & new & Hcreate & Hread & Hfields).
  - change (ids (categoryStorage two_in_work)) with [VNum 100].
    apply NoDup_singleton.
  - change (ids (categoryStorage two_in_work)) with [VNum 100].
    intros H%list_elem_of_singleton. discriminate.
  - exists out, st', new. split; [exact Hcreate|]. split; [|exact Hfields].
    rewrite Hread. f_equal. f_equal. f_equal.
    assert (Hst : st' = (Model.create " C " "Home" 104 105 two_in_work).2)
      by (by rewrite Hcreate).
    rewrite Hst. vm_compute. reflexivity.
Defined.

(** ** [read] and [getCount] never write *)

(** Whatever the query, and whether it reaches its callback or throws,
    [read] leaves both stores as they were, in both revisions; so does
    [getCount]. *)
Theorem reads_never_write (q : query) (st : stores) :
  (Model.read q st).2 = st ∧
  (Model0.read q st).2 = st ∧
  (Count.getCount st).2 = st.
Proof.
  assert (Hscalar : ∀ v,
    ((let* task := tasks_read (Model.findById_parsed (parseInt v)) in
      let* task := defined task in
      let* category :=
        categories_read (Store.findById (get task "categoryId")) in
      let* category := defined category in
      ret (Single (<["categoryName" := get category "name"]> task))) st).2
    = st).
  { intros v. unfold bind, tasks_read, categories_read, defined, ret, throw.
    cbn [taskStorage categoryStorage].
    destruct (Model.findById_parsed _ _) as [task|]; [|done].
    by destruct (Store.findById _ (categoryStorage st)). }
  split; [|split]; [| |done].
  - destruct q as [|[| |b|n|s]|o]; try done; apply Hscalar.
  - destruct q as [|[| |b|n|s]|o]; try done; apply Hscalar.
Qed.

(** ** [update]: ids that find no task, ids given as strings *)

(** The category store after [update] depends on the id only through
    the task that [findById] returns for it. *)
Lemma update_categories_by_lookup (st : stores) (id id' : value)
    (data : record) (now_c now_t : Z) :
  Store.findById id (taskStorage st) = Store.findById id' (taskStorage st) →
  categoryStorage (Model.update id data now_c now_t st).2 =
  categoryStorage (Model.update id' data now_c now_t st).2.
Proof.
  intros Hsame.
  assert (Hwrite : ∀ (f : list record → list record * list record) s,
            categoryStorage (tasks_write f s).2 = categoryStorage s).
  { intros f s. unfold tasks_write. by destruct (f (taskStorage s)). }
  destruct (data !! "categoryName") as [v|] eqn:Hdata.
  - destruct (Store.findById id' (taskStorage st)) as [t|] eqn:Hfind.
    + destruct (update_found st id t data v now_c now_t Hdata Hsame)
        as (cid & cats & Hres & ->).
      destruct (update_found st id' t data v now_c now_t Hdata Hfind)
        as (cid' & cats' & Hres' & ->).
      rewrite Hres in Hres'. injection Hres' as <- <-.
      by rewrite !Hwrite.
    + rewrite (update_not_found st id data v) by done.
      by rewrite (update_not_found st id' data v).
  - unfold Model.update. rewrite Hdata. by rewrite !Hwrite.
Qed.

(** [update] with a [categoryName] and an id that finds no task throws
    after the name is resolved: the task store is as it was, and when no
    category had the name, the category created for it stays stored. *)
Theorem update_unknown_id_leaves_category (st : stores) (id : value)
    (data : record) (v : value) (now_c now_t : Z) :
  data !! "categoryName" = Some v →
  Store.findById id (taskStorage st) = None →
  ∃ st',
    Model.update id data now_c now_t st = (Throw TypeError, st') ∧
    taskStorage st' = taskStorage st ∧
    (Store.find {["name" := v]} (categoryStorage st) = [] →
     categoryStorage st' =
       json (categoryStorage st ++ [<["id" := VNum now_c]> {["name" := v]}])).
Proof.
  intros Hdata Hnone. eexists. split; [by apply update_not_found|].
  destruct (getCategoryIdByName_spec v now_c st)
    as (cid & cats & Hres & _).
  split; [by rewrite Hres|].
  intros Hfind. by rewrite getCategoryIdByName_new.
Qed.

Lemma update_unknown_id_leaves_category_witness :
  ∃ st',
    Model.update (VNum 7) move_home 104 105 one_in_work
      = (Throw TypeError, st') ∧
    taskStorage st' = taskStorage one_in_work ∧
    categoryStorage st' =
      json (categoryStorage one_in_work ++
            [<["id" := VNum 104]> {["name" := VStr "Home"]}]).
Proof.
  destruct (update_unknown_id_leaves_category one_in_work (VNum 7) move_home
              (VStr "Home") 104 105) as (st' & Hrun & Hts & Hcs).
  - reflexivity.
  - reflexivity.
  - exists st'. split; [exact Hrun|]. split; [exact Hts|].
    apply Hcs. reflexivity.
Defined.

Lemma show_truthy (n : Z) : truthy (VStr (show n)) = true.
Proof.
  cbn [truthy]. apply negb_true_iff.
  destruct (String.eqb_spec (show n) "") as [Heq|]; [|done].
  pose proof (to_number_show n) as H. rewrite Heq in H.
  injection H as <-. discriminate.
Qed.

Lemma findById_show (n : Z) (items : list record) :
  numeric_ids items →
  Store.findById (VStr (show n)) items = Store.findById (VNum n) items.
Proof.
  unfold Store.findById.
  induction 1 as [|item items [m Hm] _ IH]; [done|].
  cbn [List.find]. rewrite Hm, loose_eq_num_show, IH. reflexivity.
Qed.

(** [update] with the id given as its decimal string finds the task
    (comparison with [==]) but saves nothing on it (comparison with
    [===]): when the task was the last one of its category and the data
    names another category, the category is deleted while the task store
    stays as it was, the task still holding the id of the deleted
    category. *)
Theorem update_string_id_dangles (st : stores) (n : Z) (t C : record)
    (data : record) (v : value) (now_c now_t : Z) :
  well_keyed (taskStorage st) →
  well_keyed (categoryStorage st) →
  stored (taskStorage st) →
  stored (categoryStorage st) →
  t ∈ taskStorage st →
  get t "id" = VNum n →
  n ≠ 0 →
  C ∈ categoryStorage st →
  get t "categoryId" = get C "id" →
  last_reference st t C →
  data !! "categoryName" = Some v →
  v ≠ get C "name" →
  VNum now_c ∉ ids (categoryStorage st) →
  ∃ out st',
    Model.update (VStr (show n)) data now_c now_t st = (Done out, st') ∧
    taskStorage st' = taskStorage st ∧
    t ∈ taskStorage st' ∧
    C ∉ categoryStorage st'.
Proof.
  intros Htk Hck Hts Hcs Ht Hid Hn HC Href Hlast Hdata Hname Hfresh.
  destruct (well_keyed_split _ _ _ Htk Ht Hid)
    as (before & after & Hsplit & Hloose & _).
  apply Forall_app in Hloose as [Hloose _].
  assert (Hfound : Store.findById (VNum n) (taskStorage st) = Some t).
  { rewrite Hsplit. apply findById_split; [done|]. by apply loose_eq_num. }
  assert (Hfound' : Store.findById (VStr (show n)) (taskStorage st) = Some t).
  { rewrite findById_show; [done|]. by destruct Htk. }
  destruct (update_found st (VStr (show n)) t data v now_c now_t Hdata Hfound')
    as (cid & cats & Hres & Hupd).
  cbv zeta in Hupd.
  assert (Hsave : ∀ d cs,
    tasks_write (Store.save d (VStr (show n)) now_t)
      (Stores (taskStorage st) cs) =
    (Done (taskStorage st), Stores (taskStorage st) cs)).
  { intros d cs. unfold tasks_write, Store.save. rewrite show_truthy.
    cbn [taskStorage categoryStorage].
    rewrite update_first_none, json_stored; [done|done|].
    destruct Htk as [Hnum _]. unfold numeric_ids in Hnum.
    rewrite Forall_forall in *. intros item Hin.
    destruct (Hnum item Hin) as [m ->]. discriminate. }
  rewrite Hsave in Hupd. eexists _, _. split; [exact Hupd|].
  split; [done|]. split; [done|].
  destruct (update_cleanup st n t C Htk Hck Hcs Ht Hid HC Href data v
              now_c now_t Hn Hdata) as (out & st' & Hrun & Hgone & _).
  pose proof (update_categories_by_lookup st (VStr (show n)) (VNum n) data
                now_c now_t) as Hcats.
  rewrite Hfound, Hfound', Hupd, Hrun in Hcats. cbn [snd] in Hcats.
  rewrite Hcats by done. by apply Hgone.
Qed.

Lemma update_string_id_dangles_witness :
  ∃ out st',
    Model.update (VStr (show 101)) move_home 104 105 one_in_work
      = (Done out, st') ∧
    taskStorage st' = taskStorage one_in_work ∧
    task_a ∈ taskStorage st' ∧
    work ∉ categoryStorage st'.
Proof.
  apply (update_string_id_dangles one_in_work 101 task_a work move_home
           (VStr "Home") 104 105).
  - keyed.
  - keyed.
  - repeat constructor.
  - repeat constructor.
  - left.
  - reflexivity.
  - discriminate.
  - left.
  - reflexivity.
  - reflexivity.
  - reflexivity.
  - discriminate.
  - change (ids (categoryStorage one_in_work)) with [VNum 100].
    intros H%list_elem_of_singleton. discriminate.
Defined.

(** ** The two revisions *)

(** The earlier revision does what the current one does in [create], in
    [remove], in [read] without a query and with a scalar id, and in
    [update] with data that has no [categoryName]. *)
Theorem revisions_agree (st : stores) :
  (∀ title categoryName now_c now_t,
     Model0.create title categoryName now_c now_t st =
     Model.create title categoryName now_c now_t st) ∧
  (∀ id, Model0.remove id st = Model.remove id st) ∧
  Model0.read QCallback st = Model.read QCallback st ∧
  (∀ n, Model0.read (QValue (VNum n)) st = Model.read (QValue (VNum n)) st) ∧
  (∀ s, Model0.read (QValue (VStr s)) st = Model.read (QValue (VStr s)) st) ∧
  (∀ id data now_c now_t,
     data !! "categoryName" = None →
     Model0.update id data now_t st = Model.update id data now_c now_t st).
Proof.
  split; [|split; [|split; [|split; [|split]]]].
  - intros title categoryName now_c now_t.
    unfold Model0.create, Model.create, Model._getCategoryIdByName, bind.
    destruct (categories_read _ st) as [[data|e] st1]; [|done].
    by destruct (length data =? 0)%nat.
  - intros id. apply remove_revisions_agree.
  - reflexivity.
  - reflexivity.
  - reflexivity.
  - intros id data now_c now_t Hdata. unfold Model.update, Model0.update.
    by rewrite Hdata.
Qed.

Lemma revisions_agree_witness :
  Model0.update (VNum 101) {["title" := VStr "A2"]} 105 one_in_work =
  Model.update (VNum 101) {["title" := VStr "A2"]} 104 105 one_in_work.
Proof.
  destruct (revisions_agree one_in_work) as (_ & _ & _ & _ & _ & Hupdate).
  apply Hupdate. reflexivity.
Defined.

(** ** No dangling references *)

Lemma numeric_ids_json (items : list record) :
  numeric_ids items → numeric_ids (json items).
Proof.
  unfold numeric_ids, json. rewrite Forall_fmap. intros H.
  eapply Forall_impl; [exact H|]. intros item [n Hn]. exists n.
  cbn. by rewrite get_json_record.
Qed.

Lemma references_json (known : list value) (items : list record) :
  Forall (λ task, get task "categoryId" ∈ known) items →
  Forall (λ task, get task "categoryId" ∈ known) (json items).
Proof.
  unfold json. rewrite Forall_fmap. intros H.
  eapply Forall_impl; [exact H|]. intros item Hitem.
  cbn. by rewrite get_json_record.
Qed.

Lemma splice_first_Forall (P : record → Prop) (id : value)
    (items : list record) :
  Forall P items → Forall P (Store.splice_first id items).
Proof.
  induction 1 as [|item items Hitem Hitems IH]; [constructor|].
  cbn. destruct (loose_eq _ _); [done|]. by constructor.
Qed.

Lemma update_first_Forall (P : record → Prop) (id : value)
    (updateData : record) (items : list record) :
  (∀ item, P item → P (assign updateData item)) →
  Forall P items → Forall P (Store.update_first id updateData items).
Proof.
  intros Hassign. induction 1 as [|item items Hitem Hitems IH];
    [constructor|].
  cbn. destruct (strict_eq _ _); constructor; auto.
Qed.

(** Removing the category that an id designates keeps every other id. *)
Lemma splice_first_keeps_ids (c : Z) (x : value) (items : list record) :
  numeric_ids items → x ∈ ids items → x ≠ VNum c →
  x ∈ ids (Store.splice_first (VNum c) items).
Proof.
  intros Hnum Hx Hne. induction Hnum as [|item items [m Hm] _ IH].
  - done.
  - unfold ids in Hx. rewrite fmap_cons in Hx.
    cbn [Store.splice_first]. rewrite Hm. cbn [loose_eq].
    apply elem_of_cons in Hx as [->|Hx].
    + destruct (Z.eqb_spec m c) as [->|_]; [by rewrite Hm in Hne|].
      unfold ids. rewrite fmap_cons. left.
    + destruct (m =? c)%Z; [done|].
      unfold ids. rewrite fmap_cons. right. by apply IH.
Qed.

Lemma resolution_grows (v : value) (now : Z) (st : stores)
    (categoryId : value) (categories : list record) :
  numeric_ids (categoryStorage st) →
  Model._getCategoryIdByName v now st =
    (Done categoryId, Stores (taskStorage st) categories) →
  numeric_ids categories ∧
  (∀ x, x ∈ ids (categoryStorage st) → x ∈ ids categories) ∧
  categoryId ∈ ids categories.
Proof.
  intros Hnum Hres.
  destruct (getCategoryIdByName_spec v now st)
    as (cid & cats & Hres' & Hcases).
  rewrite Hres in Hres'. injection Hres' as <- <-.
  destruct Hcases as [(c & rest & Hfind & -> & ->)|(Hfind & -> & ->)].
  - split; [done|]. split; [done|].
    assert (H : c ∈ Store.find {["name" := v]} (categoryStorage st))
      by (rewrite Hfind; left).
    rewrite find_singleton in H. apply list_elem_of_filter in H as [_ H].
    unfold ids. apply list_elem_of_fmap. eauto.
  - split; [|split].
    + apply numeric_ids_json. apply Forall_app. split; [done|].
      constructor; [|constructor]. exists now. apply get_insert_eq.
    + intros x Hx. rewrite ids_json. unfold ids. rewrite fmap_app.
      apply elem_of_app. by left.
    + rewrite ids_json. unfold ids. rewrite fmap_app.
      apply elem_of_app. right. cbn [fmap list_fmap].
      rewrite get_insert_eq. left.
Qed.

Lemma remove_found (st : stores) (id : value) (t : record) :
  Store.findById id (taskStorage st) = Some t →
  ∃ before after,
    taskStorage st = before ++ t :: after ∧
    Model.remove id st =
      (Done (before ++ after),
       Stores (json (before ++ after))
         (if (length (Store.find {["categoryId" := get t "categoryId"]}
                        (taskStorage st)) <=? 1)%nat
          then json (Store.splice_first (get t "categoryId")
                       (categoryStorage st))
          else categoryStorage st)).
Proof.
  intros Hfound. pose proof Hfound as Hsplit.
  apply findById_Some in Hsplit as (before & after & Hts & Hb & Hr).
  exists before, after. split; [done|].
  unfold Model.remove, bind, tasks_read, tasks_write, categories_write,
    defined, ret, Store.remove.
  rewrite Hfound. cbn [taskStorage categoryStorage].
  destruct (length _ <=? 1)%nat; cbn [taskStorage categoryStorage];
    by rewrite Hts, (splice_first_split _ _ _ _ Hb Hr).
Qed.

Lemma loose_false_ne (a b : value) : loose_eq a b = false → a ≠ b.
Proof. intros H ->. by rewrite loose_eq_refl in H. Qed.

Lemma create_keeps_references (st : stores) (title categoryName : string)
    (now_c now_t : Z) :
  no_dangling st →
  no_dangling (Model.create title categoryName now_c now_t st).2.
Proof.
  intros (Htn & Hcn & Href).
  destruct (create_eval st title categoryName now_c now_t)
    as (cid & cats & newTask & Hres & HnewTask & ->).
  destruct (resolution_grows _ _ _ _ _ Hcn Hres) as (Hcn' & Hsub & Hcid).
  destruct (new_task_fields (Model.trimmed title) cid now_t)
    as (Hid & _ & Hcat & _).
  cbv zeta in Hid, Hcat. rewrite <- HnewTask in *.
  unfold no_dangling. cbn [snd taskStorage categoryStorage].
  split; [|split; [done|]].
  - apply numeric_ids_json. apply Forall_app. split; [done|].
    constructor; [|constructor]. by exists now_t.
  - apply references_json. apply Forall_app. split.
    + eapply Forall_impl; [exact Href|]. intros task. apply Hsub.
    + constructor; [|constructor]. by rewrite Hcat.
Qed.

Lemma remove_keeps_references (st : stores) (id : value) :
  no_dangling st → no_dangling (Model.remove id st).2.
Proof.
  intros (Htn & Hcn & Href).
  destruct (Store.findById id (taskStorage st)) as [t|] eqn:Hfound.
  - destruct (remove_found st id t Hfound)
      as (before & after & Hts & ->).
    unfold no_dangling. cbn [snd taskStorage categoryStorage].
    rewrite Hts in Htn, Href.
    assert (Htn' : numeric_ids (before ++ after)).
    { unfold numeric_ids in *. rewrite Forall_app in *.
      destruct Htn as [Hb Ha]. split; [done|].
      by apply Forall_cons in Ha as [_ Ha]. }
    assert (Ht : get t "categoryId" ∈ ids (categoryStorage st)).
    { rewrite Forall_app in Href. destruct Href as [_ Ha].
      by apply Forall_cons in Ha as [Ha _]. }
    assert (Href' : Forall (λ task, get task "categoryId"
                              ∈ ids (categoryStorage st)) (before ++ after)).
    { rewrite Forall_app in *. destruct Href as [Hb Ha]. split; [done|].
      by apply Forall_cons in Ha as [_ Ha]. }
    split; [by apply numeric_ids_json|].
    destruct (length _ <=? 1)%nat eqn:Hlen.
    + split; [by apply numeric_ids_json, splice_first_Forall|].
      apply references_json. rewrite ids_json.
      apply list_elem_of_fmap in Ht as (c & Hc & Hcin).
      pose proof Hcn as Hcn'. unfold numeric_ids in Hcn'.
      rewrite Forall_forall in Hcn'. destruct (Hcn' c Hcin) as [m Hm].
      assert (Hprev : get t "categoryId" = VNum m) by (by rewrite Hc).
      rewrite Hprev in Hlen |- *.
      rewrite find_singleton in Hlen. apply Nat.leb_le in Hlen.
      rewrite Hts in Hlen.
      destruct (filter_only _ before after t Hprev Hlen) as [Hb Ha].
      rewrite Forall_forall in *. intros task Htask.
      apply splice_first_keeps_ids; [done|by apply Href'|].
      apply elem_of_app in Htask as [Htask|Htask]; [by apply Hb|by apply Ha].
    + split; [done|]. by apply references_json.
  - unfold Model.remove, bind, tasks_read. by rewrite Hfound.
Qed.

Lemma tasks_write_stores {A} (f : list record → A * list record)
    (st : stores) :
  (tasks_write f st).2 = Stores (f (taskStorage st)).2 (categoryStorage st).
Proof. unfold tasks_write. by destruct (f (taskStorage st)). Qed.

(** A [save] by id of data that carries neither [id] nor [categoryId]
    keeps the ids and the category references of the tasks. *)
Lemma save_keeps_references (d : record) (n now : Z) (known : list value)
    (tasks : list record) :
  n ≠ 0 →
  d !! "id" = None →
  d !! "categoryId" = None →
  numeric_ids tasks →
  Forall (λ task, get task "categoryId" ∈ known) tasks →
  numeric_ids (Store.save d (VNum n) now tasks).2 ∧
  Forall (λ task, get task "categoryId" ∈ known)
    (Store.save d (VNum n) now tasks).2.
Proof.
  intros Hn Hid Hcat Hnum Href. unfold Store.save. cbn [truthy].
  apply Z.eqb_neq in Hn. rewrite Hn. cbn [negb snd]. split.
  - apply numeric_ids_json. apply update_first_Forall; [|done].
    intros item [m Hm]. exists m. by rewrite get_assign_r.
  - apply references_json. apply update_first_Forall; [|done].
    intros item Hitem. by rewrite get_assign_r.
Qed.

Lemma update_keeps_references (st : stores) (n : Z) (data : record)
    (now_c now_t : Z) :
  n ≠ 0 →
  data !! "id" = None →
  data !! "categoryId" = None →
  no_dangling st →
  no_dangling (Model.update (VNum n) data now_c now_t st).2.
Proof.
  intros Hn Hdid Hdcat (Htn & Hcn & Href).
  destruct (data !! "categoryName") as [v|] eqn:Hdata.
  2:{ unfold Model.update. rewrite Hdata, tasks_write_stores.
      destruct (save_keeps_references data n now_t
                  (ids (categoryStorage st)) (taskStorage st)) as [H1 H2];
        try done. }
  destruct (getCategoryIdByName_spec v now_c st)
    as (cid & cats & Hres & _).
  destruct (resolution_grows _ _ _ _ _ Hcn Hres) as (Hcn1 & Hsub & Hcid).
  assert (Href1 : Forall (λ task, get task "categoryId" ∈ ids cats)
                    (taskStorage st)).
  { eapply Forall_impl; [exact Href|]. intros task. apply Hsub. }
  destruct (Store.findById (VNum n) (taskStorage st)) as [t|] eqn:Hfound.
  2:{ rewrite (update_not_found st (VNum n) data v) by done.
      by rewrite Hres. }
  destruct (update_found st (VNum n) t data v now_c now_t Hdata Hfound)
    as (cid' & cats' & Hres' & ->).
  rewrite Hres in Hres'. injection Hres' as <- <-.
  rewrite tasks_write_stores. cbn [taskStorage categoryStorage].
  unfold no_dangling. cbn [taskStorage categoryStorage].
  assert (Hrest_id : delete "categoryName" data !! "id" = None)
    by (by rewrite lookup_delete_ne).
  assert (Hrest_cat : delete "categoryName" data !! "categoryId" = None)
    by (by rewrite lookup_delete_ne).
  destruct (negb (strict_eq cid (get t "categoryId"))) eqn:Hchanged;
    cbn [andb].
  2:{ destruct (save_keeps_references (delete "categoryName" data) n now_t
                  (ids cats) (taskStorage st)) as [H1 H2]; try done. }
  (* the task is reassigned to [cid] *)
  apply negb_true_iff in Hchanged. unfold strict_eq in Hchanged.
  apply bool_decide_eq_false in Hchanged.
  apply findById_Some in Hfound as (before & after & Hts & Hb & Hr).
  rewrite Hts in Htn, Href, Href1.
  assert (Htid : get t "id" = VNum n).
  { unfold numeric_ids in Htn. rewrite Forall_app, Forall_cons in Htn.
    destruct Htn as (_ & [m Hm] & _). rewrite Hm in Hr |- *.
    simpl in Hr. by apply Z.eqb_eq in Hr as ->. }
  assert (Hbefore : Forall (λ item, get item "id" ≠ VNum n) before).
  { eapply Forall_impl; [exact Hb|]. intros item. apply loose_false_ne. }
  set (data' := <["categoryId" := cid]> (delete "categoryName" data)).
  assert (Hsave : (Store.save data' (VNum n) now_t (taskStorage st)).2 =
                  json (before ++ assign data' t :: after)).
  { unfold Store.save. cbn [truthy]. apply Z.eqb_neq in Hn. rewrite Hn.
    cbn [negb snd]. by rewrite Hts, update_first_split. }
  rewrite Hsave.
  assert (Hmerged_id : get (assign data' t) "id" = VNum n).
  { rewrite get_assign_r; [done|]. subst data'.
    by rewrite lookup_insert_ne. }
  assert (Hmerged_cat : get (assign data' t) "categoryId" = cid).
  { apply get_assign_l. subst data'. apply lookup_insert_eq. }
  split.
  { apply numeric_ids_json. unfold numeric_ids in *.
    rewrite Forall_app, Forall_cons in *. destruct Htn as (Hnb & _ & Hna).
    split; [done|]. split; [by exists n|done]. }
  destruct (length _ <=? 1)%nat eqn:Hlen.
  2:{ split; [done|]. apply references_json.
      rewrite Forall_app, Forall_cons in *.
      destruct Href1 as (H1 & _ & H2). split; [done|].
      split; [by rewrite Hmerged_cat|done]. }
  split; [by apply numeric_ids_json, splice_first_Forall|].
  apply references_json. rewrite ids_json.
  assert (Ht : get t "categoryId" ∈ ids (categoryStorage st)).
  { rewrite Forall_app, Forall_cons in Href. by destruct Href as (_ & H & _). }
  apply list_elem_of_fmap in Ht as (c & Hc & Hcin).
  pose proof Hcn as Hcn'. unfold numeric_ids in Hcn'.
  rewrite Forall_forall in Hcn'. destruct (Hcn' c Hcin) as [m Hm].
  assert (Hprev : get t "categoryId" = VNum m) by (by rewrite Hc).
  rewrite Hprev in Hlen, Hchanged |- *.
  rewrite find_singleton, Hts in Hlen. apply Nat.leb_le in Hlen.
  destruct (filter_only _ before after t Hprev Hlen) as [Hfb Hfa].
  rewrite Forall_app, Forall_cons in *.
  destruct Href1 as (H1 & _ & H2).
  split; [|split].
  - rewrite Forall_forall in *. intros task Htask.
    apply splice_first_keeps_ids; [done|by apply H1|by apply Hfb].
  - rewrite Hmerged_cat. by apply splice_first_keeps_ids.
  - rewrite Forall_forall in *. intros task Htask.
    apply splice_first_keeps_ids; [done|by apply H2|by apply Hfa].
Qed.

(** From stores where ids are numbers and every task references a stored
    category, every sequence of [create], [update], [remove] and
    [removeAll] calls, throwing ones included, leaves such stores, as
    long as each update is addressed by a nonzero number and its data
    carries neither an [id] nor a [categoryId]. *)
Theorem references_stay_valid (actions : list action) (st : stores) :
  no_dangling st →
  Forall addressed actions →
  no_dangling (run_actions actions st).
Proof.
  intros Hst Hactions. revert st Hst.
  induction Hactions as [|a actions Ha _ IH]; intros st Hst; [done|].
  cbn [run_actions foldl]. apply IH.
  destruct a as [title categoryName now_c now_t|id data now_c now_t|id|];
    cbn [act].
  - by apply create_keeps_references.
  - destruct Ha as ([n [-> Hn]] & Hid & Hcat).
    by apply update_keeps_references.
  - by apply remove_keeps_references.
  - repeat split; constructor.
Qed.

Lemma references_stay_valid_witness :
  no_dangling
    (run_actions
       [ ACreate "A" "Work" 100 101;
         AUpdate (VNum 101) move_home 104 105;
         ARemove (VNum 7);
         ARemove (VNum 101) ]
       no_stores).
Proof.
  apply references_stay_valid.
  - repeat split; constructor.
  - repeat constructor. exists 101. by split.
Defined.

(** ** Distinct names under all operations *)

Lemma keeps_drop : keeps_names (categories_write Store.drop).
Proof. intros st _. constructor. Qed.

Lemma keeps_act (a : action) : keeps_names (act a).
Proof.
  destruct a as [title categoryName now_c now_t|id data now_c now_t|id|];
    unfold act, Model.create, Model.update, Model.reassign, Model.remove,
      Model.removeAll, defined;
    repeat first [ apply keeps_drop | progress keeps ].
Qed.

(** Stores in which no two categories have the same name stay so under
    every sequence of [create], [update], [remove] and [removeAll] calls,
    whatever their arguments and clock readings and whether they reach
    their callback or throw. *)
Theorem names_stay_distinct_under_all (actions : list action) (st : stores) :
  names_distinct st → names_distinct (run_actions actions st).
Proof.
  revert st. induction actions as [|a actions IH]; intros st Hst; [done|].
  apply IH. by apply keeps_act.
Qed.

Lemma names_stay_distinct_under_all_witness :
  names_distinct
    (run_actions
       [ ACreate "A" "Work" 100 100;
         ACreate "B" " Work" 100 100;
         AUpdate (VNum 100) both_fields 100 100;
         ARemove (VStr "100") ]
       one_in_work).
Proof.
  apply names_stay_distinct_under_all.
  change (names (categoryStorage one_in_work)) with [VStr "Work"].
  apply NoDup_singleton.
Defined.

Lemma read_bulk_dangling_witness :
  ∃ data,
    Model.read (QObject ∅) (Stores [dangling_task] [work]) =
      (Done (Records data), Stores [dangling_task] [work]) ∧
    ∀ r, r ∈ data →
      Forall (λ c, get c "id" ≠ get r "categoryId")
        (categoryStorage (Stores [dangling_task] [work])) →
      get r "categoryName" = VUndef.
Proof.
  apply (read_bulk_dangling (Stores [dangling_task] [work]) (QObject ∅)).
  right. by exists ∅.
Defined.
